(** * Bybit auto-trader: indicator pipeline, signal engine, risk manager and
      trading loop of [bybit_auto_trader.py], embedded in Rocq.

    Numbers.  Python floats are modelled by exact rationals [Q]: every
    arithmetic operation is the exact one, comparisons are the rational
    ones, and there is no NaN or infinity.  Python [int]s are [Z].
    Rounding error is outside this model: what is stated over it is the
    formula the code computes, the branch it takes, what it raises,
    comparisons of values the code itself compares, and one-sided bounds
    with slack.

    Doubles.  Where the very digits matter, the function is given a second
    time on IEEE-754 binary64 numbers, in module [F64]: [F64.round_step]
    and [F64.bracket_prices] are [round_step] and [Bot.bracket_prices] as
    Python runs them.

    Optional values.  An indicator is [None] or a float: [option Q].

    Exceptions.  A function that can raise returns [res A]; the three
    exceptions the trading code can meet are listed in [exn].

    Source remark.  Lines 262-263 and 267-268 of the source (the client-side
    stop block) are written with escaped quotes and with [; else:] on one
    line; the embedding follows their evident reading, the same
    [if DRY_RUN: print(...) else: http_post(...)] as line 256-257. *)

From Stdlib Require Import ZArith QArith Qround Qabs List Bool Lia Lqa.
From Stdlib Require Import Permutation Sorted.
From Stdlib Require Import PrimFloat SpecFloat FloatOps.
From Stdlib Require String.
Import Stdlib.Strings.String.StringSyntax.
Delimit Scope string_scope with string.
Import ListNotations.
Open Scope Q_scope.

(* A decimal literal of [float_scope] denotes the nearest double, as a
   literal of Python does. *)
Set Warnings "-inexact-float".

(* ------------------------------------------------------------------ *)
(** ** Python primitives *)

Inductive exn : Type :=
| IndexError
| ZeroDivisionError
| GatewayError.

Inductive res (A : Type) : Type :=
| Ok (a : A)
| Raise (e : exn).

Arguments Ok {A} a.
Arguments Raise {A} e.

Definition rbind {A B : Type} (m : res A) (k : A -> res B) : res B :=
  match m with
  | Ok a => k a
  | Raise e => Raise e
  end.

Notation "x <- m ;; k" := (rbind m (fun x => k))
  (at level 61, m at next level, right associativity).

Fixpoint mapM {A B : Type} (f : A -> res B) (l : list A) : res (list B) :=
  match l with
  | [] => Ok []
  | a :: l' => b <- f a ;; bs <- mapM f l' ;; Ok (b :: bs)
  end.

Fixpoint foldM {A S : Type} (f : S -> A -> res S) (l : list A) (s : S) : res S :=
  match l with
  | [] => Ok s
  | a :: l' => s' <- f s a ;; foldM f l' s'
  end.

(** [a < b] on floats. *)
Definition Qltb (a b : Q) : bool := negb (Qle_bool b a).

(** [max(a, b)]: the first argument unless the second is strictly greater. *)
Definition py_max (a b : Q) : Q := if Qltb a b then b else a.

(** [min(a, b)]: the first argument unless the second is strictly smaller. *)
Definition py_min (a b : Q) : Q := if Qltb b a then b else a.

(** [max(a, b, c)] scans its arguments from the left. *)
Definition py_max3 (a b c : Q) : Q := py_max (py_max a b) c.

(** [a / b], raising on a zero divisor. *)
Definition py_div (a b : Q) : res Q :=
  if Qeq_bool b 0 then Raise ZeroDivisionError else Ok (a / b).

(** Truth value of an optional float: [None] and [0.0] are false. *)
Definition truthy (v : option Q) : bool :=
  match v with
  | Some q => negb (Qeq_bool q 0)
  | None => false
  end.

(** The float behind a truthy optional value. *)
Definition usable (v : option Q) : option Q :=
  match v with
  | Some q => if Qeq_bool q 0 then None else Some q
  | None => None
  end.

Definition len {A : Type} (l : list A) : Z := Z.of_nat (length l).

(** A slice bound: negative bounds count from the end, then clamp. *)
Definition py_bound (n i : Z) : nat :=
  Z.to_nat (Z.max 0 (Z.min n (if (i <? 0)%Z then (i + n)%Z else i))).

(** [l[i:]] *)
Definition slice_from {A : Type} (l : list A) (i : Z) : list A :=
  skipn (py_bound (len l) i) l.

(** [l[:i]] *)
Definition slice_to {A : Type} (l : list A) (i : Z) : list A :=
  firstn (py_bound (len l) i) l.

(** [l[i]] *)
Definition py_index (l : list Q) (i : Z) : res Q :=
  let j := if (i <? 0)%Z then (i + len l)%Z else i in
  if ((0 <=? j)%Z && (j <? len l)%Z)%bool
  then Ok (nth (Z.to_nat j) l 0)
  else Raise IndexError.

(** [range(a, b)] *)
Definition py_range (a b : Z) : list Z :=
  map (fun k => (a + Z.of_nat k)%Z) (seq 0 (Z.to_nat (b - a))).

(** [sum(l)] *)
Definition py_sum (l : list Q) : Q := fold_left Qplus l 0.

(** [math.floor] *)
Definition py_floor (q : Q) : Z := Qfloor q.

(** Nearest integer, ties to the even one (how [format] rounds). *)
Definition round_half_even (x : Q) : Z :=
  let f := Qfloor x in
  let r := x - inject_Z f in
  if Qltb r (1 # 2) then f
  else if Qltb (1 # 2) r then (f + 1)%Z
  else if Z.even f then f else (f + 1)%Z.

(** [float(f"{q:.6f}")] *)
Definition fmt6 (q : Q) : Q :=
  inject_Z (round_half_even (q * 1000000)) / 1000000.

(* ------------------------------------------------------------------ *)
(** ** Configuration constants *)

Definition SMA_FAST : Z := 20.
Definition SMA_SLOW : Z := 50.
Definition EMA_TREND : Z := 200.
Definition RSI_LEN : Z := 14.
Definition RSI_LONG : Q := 55.
Definition RSI_SHORT : Q := 45.
Definition ATR_LEN : Z := 14.
Definition ATR_SL_MULT : Q := 15 # 10.
Definition ATR_TP_MULT : Q := 2.

Definition RISK_PCT : Q := 3 # 1000.
Definition MAX_LEVERAGE : Z := 5.
Definition MAX_POS_EQUITY_FRAC : Q := 2 # 10.
Definition DAILY_LOSS_LIMIT : Q := 2 # 100.
Definition GLOBAL_DD_LIMIT : Q := 5 # 100.

(* ------------------------------------------------------------------ *)
(** ** Indicator pipeline *)

Definition round_step (value step : Q) : res Q :=
  q <- py_div value step ;;
  Ok (inject_Z (py_floor q) * step).

Definition sma (values : list Q) (n : Z) : option Q :=
  if ((len values <? n)%Z || (n <=? 0)%Z)%bool then None
  else Some (py_sum (slice_from values (- n)) / inject_Z n).

Definition ema_step (k : Q) (e v : Q) : Q := v * k + e * (1 - k).

Definition ema (values : list Q) (n : Z) : option Q :=
  if ((len values <? n)%Z || (n <=? 0)%Z)%bool then None
  else
    let k := 2 / inject_Z (n + 1) in
    let e := py_sum (slice_to values n) / inject_Z n in
    Some (fold_left (ema_step k) (slice_from values n) e).

(** The body of the loop of [rsi] on a difference [d]; the state is
    [(gains, losses)]. *)
Definition rsi_acc (gl : Q * Q) (d : Q) : Q * Q :=
  if Qle_bool 0 d then (fst gl + d, snd gl) else (fst gl, snd gl - d).

(** One turn of the loop of [rsi], at index [i]. *)
Definition rsi_step (values : list Q) (gl : Q * Q) (i : Z) : res (Q * Q) :=
  a <- py_index values i ;;
  b <- py_index values (i - 1) ;;
  Ok (rsi_acc gl (a - b)).

Definition rsi (values : list Q) (n : Z) : res (option Q) :=
  if (len values <? n + 1)%Z then Ok None
  else
    gl <- foldM (rsi_step values) (py_range (- n) 0) (0, 0) ;;
    if Qeq_bool (snd gl) 0 then Ok (Some 100)
    else
      rs <- py_div (fst gl) (snd gl) ;;
      t <- py_div 100 (1 + rs) ;;
      Ok (Some (100 - t)).

Definition true_range (high low close : list Q) (i : Z) : res Q :=
  h <- py_index high i ;;
  l <- py_index low i ;;
  c <- py_index close (i - 1) ;;
  Ok (py_max3 (h - l) (Qabs (h - c)) (Qabs (l - c))).

Definition wilder_step (n : Z) (a x : Q) : Q :=
  (a * inject_Z (n - 1) + x) / inject_Z n.

Definition atr (high low close : list Q) (n : Z) : res (option Q) :=
  if (len close <? n + 1)%Z then Ok None
  else
    trs <- mapM (true_range high low close) (py_range 1 (len close)) ;;
    if (len trs <? n)%Z then Ok None
    else
      a <- py_div (py_sum (slice_to trs n)) (inject_Z n) ;;
      Ok (Some (fold_left (wilder_step n) (slice_from trs n) a)).


(* ------------------------------------------------------------------ *)
(** ** Data model *)

(** [k = {"open": o, "high": h, "low": l, "close": c}] *)
Record Klines : Type := mkKlines {
  k_open : list Q;
  k_high : list Q;
  k_low : list Q;
  k_close : list Q
}.

(** The dict built by [compute_indicators]. *)
Record Snapshot : Type := mkSnapshot {
  x_ema200 : option Q;
  x_sfast : option Q;
  x_sslow : option Q;
  x_rsi : option Q;
  x_atr : option Q;
  x_close : Q
}.

(** [Position.side]: [""], ["long"] or ["short"]. *)
Inductive Side : Type :=
| Flat
| Long
| Short.

Record Position : Type := mkPosition {
  side : Side;
  entry : Q;
  qty : Q;
  sl : Q;
  tp : Q
}.

(** [Position()] *)
Definition Position0 : Position := mkPosition Flat 0 0 0 0.

Definition set_sl (p : Position) (v : Q) : Position :=
  mkPosition (side p) (entry p) (qty p) v (tp p).

(** The strings returned by [decide]. *)
Inductive Decision : Type :=
| hold
| open_long
| open_short
| close_long
| close_short
| manage.

(** [self.instrument] *)
Record Instrument : Type := mkInstrument {
  qty_step : Q;
  min_qty : Q;
  tick_size : Q;
  max_leverage : Q
}.

(** The fields of [Bot] ([symbol] plays no part in the logic). *)
Record Bot : Type := mkBot {
  instrument : Instrument;
  start_equity : Q;
  day_start_equity : Q;
  position : Position
}.

Definition set_position (b : Bot) (p : Position) : Bot :=
  mkBot (instrument b) (start_equity b) (day_start_equity b) p.

(** [Bot.__init__] with the instrument and the equity the gateway returned. *)
Definition Bot_init (inst : Instrument) (equity : Q) : Bot :=
  mkBot inst equity equity Position0.

Inductive OrderSide : Type :=
| Buy
| Sell.

(** The payload of [/v5/order/create]: a market order, [timeInForce = IOC]. *)
Record Order : Type := mkOrder {
  o_side : OrderSide;
  o_qty : Q;
  o_reduce_only : bool;
  o_tp : option Q;
  o_sl : option Q
}.

(** Outcome of [circuit_breakers]: [False], [True], or [SystemExit]. *)
Inductive Breaker : Type :=
| NoBreak
| Pause
| Halt.

(* ------------------------------------------------------------------ *)
(** ** Signal engine and risk manager *)

Definition compute_indicators (k : Klines) : res Snapshot :=
  let c := k_close k in
  let h := k_high k in
  let l := k_low k in
  let e200 := ema c EMA_TREND in
  let sf := sma c SMA_FAST in
  let ss := sma c SMA_SLOW in
  r <- rsi c RSI_LEN ;;
  a <- atr h l c ATR_LEN ;;
  cl <- py_index c (-1) ;;
  Ok (mkSnapshot e200 sf ss r a cl).

(** [a and b and a > b] on two optional floats, as a truth value; the
    comparison is only reached with both present. *)
Definition both_and_gt (a b : option Q) : bool :=
  truthy a && truthy b &&
  match a, b with
  | Some p, Some q => Qltb q p
  | _, _ => false
  end.

Definition both_and_lt (a b : option Q) : bool :=
  truthy a && truthy b &&
  match a, b with
  | Some p, Some q => Qltb p q
  | _, _ => false
  end.

(** [v and price > v] *)
Definition and_price_gt (v : option Q) (price : Q) : bool :=
  truthy v && match v with Some q => Qltb q price | None => false end.

(** [v and price < v] *)
Definition and_price_lt (v : option Q) (price : Q) : bool :=
  truthy v && match v with Some q => Qltb price q | None => false end.

(** [v and v > c] *)
Definition and_gt (v : option Q) (c : Q) : bool :=
  truthy v && match v with Some q => Qltb c q | None => false end.

(** [v and v < c] *)
Definition and_lt (v : option Q) (c : Q) : bool :=
  truthy v && match v with Some q => Qltb q c | None => false end.

(** Truth value of [long_sig] in [decide]. *)
Definition long_sig (x : Snapshot) : bool :=
  both_and_gt (x_sfast x) (x_sslow x)
  && and_price_gt (x_ema200 x) (x_close x)
  && and_gt (x_rsi x) RSI_LONG.

(** Truth value of [short_sig] in [decide]. *)
Definition short_sig (x : Snapshot) : bool :=
  both_and_lt (x_sfast x) (x_sslow x)
  && and_price_lt (x_ema200 x) (x_close x)
  && and_lt (x_rsi x) RSI_SHORT.

(** [decide] returns the decision and the position it leaves behind
    (it raises the stop of [self.position] in place). *)
Definition decide (x : Snapshot) (p : Position) : Decision * Position :=
  let price := x_close x in
  match side p with
  | Flat =>
      if long_sig x then (open_long, p)
      else if short_sig x then (open_short, p)
      else (hold, p)
  | Long =>
      let p' :=
        match usable (x_atr x) with
        | Some a =>
            let new_sl := py_max (sl p) (price - ATR_SL_MULT * a) in
            if Qltb (sl p) new_sl then set_sl p new_sl else p
        | None => p
        end in
      if short_sig x then (close_long, p') else (manage, p')
  | Short =>
      let p' :=
        match usable (x_atr x) with
        | Some a =>
            let new_sl := py_min (sl p) (price + ATR_SL_MULT * a) in
            if Qltb new_sl (sl p) then set_sl p new_sl else p
        | None => p
        end in
      if long_sig x then (close_short, p') else (manage, p')
  end.

(** [position_sizing]; [equity] is what [get_wallet_equity()] returned. *)
Definition position_sizing (inst : Instrument) (equity price atr_val : Q) : res Q :=
  let risk_dollars := equity * RISK_PCT in
  let stop_dist := py_max (atr_val * ATR_SL_MULT) (price * (2 # 1000)) in
  q0 <- py_div risk_dollars stop_dist ;;
  let max_notional := equity * MAX_POS_EQUITY_FRAC * inject_Z MAX_LEVERAGE in
  cap <- py_div max_notional price ;;
  let q1 := py_min q0 cap in
  r <- round_step q1 (qty_step inst) ;;
  let q2 := py_max r (min_qty inst) in
  Ok (fmt6 q2).

(** [bracket_prices] returns [(tp, sl)]; any side other than ["long"] takes
    the second branch. *)
Definition bracket_prices (inst : Instrument) (sd : Side) (price atr_val : Q) : res (Q * Q) :=
  let tick := tick_size inst in
  match sd with
  | Long =>
      s <- round_step (price - ATR_SL_MULT * atr_val) tick ;;
      t <- round_step (price + ATR_TP_MULT * atr_val) tick ;;
      Ok (t, s)
  | _ =>
      s <- round_step (price + ATR_SL_MULT * atr_val) tick ;;
      t <- round_step (price - ATR_TP_MULT * atr_val) tick ;;
      Ok (t, s)
  end.

(** [circuit_breakers]; [equity] is what [get_wallet_equity()] returned. *)
Definition circuit_breakers (b : Bot) (equity : Q) : Breaker :=
  if Qltb 0 (day_start_equity b)
     && Qle_bool ((equity - day_start_equity b) / day_start_equity b) (- DAILY_LOSS_LIMIT)
  then Pause
  else if Qltb 0 (start_equity b)
          && Qle_bool ((equity - start_equity b) / start_equity b) (- GLOBAL_DD_LIMIT)
  then Halt
  else NoBreak.

(* ------------------------------------------------------------------ *)
(** ** Trading loop *)

(** What the gateway answers during one cycle: the equity read by
    [circuit_breakers], the candles, the equity read by [position_sizing],
    and whether [/v5/order/create] accepts an order. *)
Record Env : Type := mkEnv {
  wallet_cb : res Q;
  klines : res Klines;
  wallet_sz : res Q;
  post_ok : Order -> bool
}.

(** A computation on the bot: it may raise, it may change [self], and it
    emits the orders it submits.  The state survives an exception, as the
    fields of a Python object do. *)
Definition M (A : Type) : Type := Bot -> res A * Bot * list Order.

Definition ret {A : Type} (a : A) : M A := fun b => (Ok a, b, []).

Definition bind {A B : Type} (m : M A) (k : A -> M B) : M B :=
  fun b =>
    match m b with
    | (Ok a, b1, o1) =>
        match k a b1 with
        | (r, b2, o2) => (r, b2, o1 ++ o2)
        end
    | (Raise e, b1, o1) => (Raise e, b1, o1)
    end.

Notation "x <~ m ;; k" := (bind m (fun x => k))
  (at level 61, m at next level, right associativity).

Definition lift {A : Type} (r : res A) : M A := fun b => (r, b, []).

Definition get_position : M Position := fun b => (Ok (position b), b, []).

Definition put_position (p : Position) : M unit :=
  fun b => (Ok tt, set_position b p, []).

Definition get_instrument : M Instrument := fun b => (Ok (instrument b), b, []).

Definition emit (o : Order) : M unit := fun b => (Ok tt, b, [o]).

Definition opt_float (v : Q) : option Q := if Qeq_bool v 0 then None else Some v.

Definition order_side (sd : Side) : OrderSide :=
  match sd with Long => Buy | _ => Sell end.

(** The side of a closing order: ["Sell" if side == "long" else "Buy"]. *)
Definition closing_side (sd : Side) : OrderSide :=
  match sd with Long => Sell | _ => Buy end.

Definition close_order (p : Position) : Order :=
  mkOrder (closing_side (side p)) (qty p) true None None.

Section Loop.

Variable DRY_RUN : bool.
Variable env : Env.

(** An order goes out: printed under [DRY_RUN], posted otherwise; a post the
    gateway refuses raises. *)
Definition submit (o : Order) : M unit :=
  _ <~ emit o ;;
  if DRY_RUN then ret tt
  else if post_ok env o then ret tt else lift (Raise GatewayError).

Definition place_market_order (sd : Side) (q t s : Q) : M unit :=
  submit (mkOrder (order_side sd) q false (opt_float t) (opt_float s)).

(** Lines 246-247 and 250-251. *)
Definition open_position (sd : Side) (price a : Q) : M unit :=
  inst <~ get_instrument ;;
  equity <~ lift (wallet_sz env) ;;
  q <~ lift (position_sizing inst equity price a) ;;
  ts <~ lift (bracket_prices inst sd price a) ;;
  _ <~ place_market_order sd q (fst ts) (snd ts) ;;
  put_position (mkPosition sd price q (snd ts) (fst ts)).

(** Lines 254-258, and each arm of 260-269. *)
Definition close_position : M unit :=
  p <~ get_position ;;
  _ <~ submit (close_order p) ;;
  put_position Position0.

(** Lines 245-258. *)
Definition act (action : Decision) (x : Snapshot) : M unit :=
  p <~ get_position ;;
  match action, usable (x_atr x) with
  | open_long, Some a => open_position Long (x_close x) a
  | open_short, Some a => open_position Short (x_close x) a
  | close_long, _ | close_short, _ =>
      match side p with
      | Flat => ret tt
      | _ => close_position
      end
  | _, _ => ret tt
  end.

(** Lines 259-269. *)
Definition enforce_stop (price : Q) : M unit :=
  p <~ get_position ;;
  match side p with
  | Flat => ret tt
  | Long => if Qle_bool price (sl p) then close_position else ret tt
  | Short => if Qle_bool (sl p) price then close_position else ret tt
  end.

(** Lines 239-269: what a cycle does once it has the snapshot. *)
Definition trade (x : Snapshot) : M unit :=
  p <~ get_position ;;
  let d := decide x p in
  _ <~ put_position (snd d) ;;
  _ <~ act (fst d) x ;;
  enforce_stop (x_close x).

(** How one turn of [while True] ends. *)
Inductive CycleEnd : Type :=
| Completed
| Paused
| Aborted (e : exn)
| Halted.

(** One turn of the loop of [Bot.loop]. *)
Definition cycle (b : Bot) : CycleEnd * Bot * list Order :=
  match wallet_cb env with
  | Raise e => (Aborted e, b, [])
  | Ok equity =>
      match circuit_breakers b equity with
      | Halt => (Halted, b, [])
      | Pause => (Paused, b, [])
      | NoBreak =>
          match (k <~ lift (klines env) ;;
                 x <~ lift (compute_indicators k) ;;
                 trade x) b with
          | (Ok _, b', os) => (Completed, b', os)
          | (Raise e, b', os) => (Aborted e, b', os)
          end
      end
  end.

End Loop.

(** [Bot.loop] over the gateway answers of successive cycles; it stops at
    the first halt.  Returns the bot and the orders of all cycles. *)
Fixpoint loop (DRY_RUN : bool) (envs : list Env) (b : Bot) : Bot * list Order :=
  match envs with
  | [] => (b, [])
  | e :: envs' =>
      match cycle DRY_RUN e b with
      | (Halted, b', os) => (b', os)
      | (_, b', os) =>
          match loop DRY_RUN envs' b' with
          | (b'', os') => (b'', os ++ os')
          end
      end
  end.

(* ------------------------------------------------------------------ *)
(** ** RSI as the specification words it *)

(** The consecutive differences [v1 - v0, v2 - v1, ...] of a series. *)
Fixpoint diffs (values : list Q) : list Q :=
  match values with
  | a :: ((b :: _) as t) => (b - a) :: diffs t
  | _ => []
  end.

(** The last [n] elements (all of them when there are fewer). *)
Definition last_n {A : Type} (n : nat) (l : list A) : list A :=
  skipn (length l - n) l.

Definition sumQ (l : list Q) : Q := fold_right Qplus 0 l.

(** Sum of the gains: the differences that are not negative. *)
Definition gains_of (ds : list Q) : Q :=
  sumQ (filter (fun d => Qle_bool 0 d) ds).

(** Sum of the absolute losses: the negative differences, unsigned. *)
Definition losses_of (ds : list Q) : Q :=
  sumQ (map Qabs (filter (fun d => negb (Qle_bool 0 d)) ds)).

(** RSI over the last [n] differences: 100 when there is no loss, else
    [100 - 100 / (1 + gains / losses)]. *)
Definition rsi_spec (values : list Q) (n : Z) : Q :=
  let ds := last_n (Z.to_nat n) (diffs values) in
  if Qeq_bool (losses_of ds) 0 then 100
  else 100 - 100 / (1 + gains_of ds / losses_of ds).

(** The difference the loop of [rsi] reads at the negative index [i]. *)
Definition diff_at (values : list Q) (i : Z) : Q :=
  nth (Z.to_nat (i + len values)) values 0
  - nth (Z.to_nat (i - 1 + len values)) values 0.

(* ------------------------------------------------------------------ *)
(** ** Consecutive evaluations and sample inputs *)

(** The position after [decide] has been called on each snapshot in turn. *)
Definition decide_all (xs : list Snapshot) (p : Position) : Position :=
  fold_left (fun q x => snd (decide x q)) xs p.

(** Two hundred closes falling by one from 300, each bar one unit either
    side of its close. *)
Definition falling_closes : list Q :=
  map (fun i => inject_Z (300 - Z.of_nat i)) (seq 0 200).

Definition falling_klines : Klines :=
  mkKlines falling_closes
           (map (fun c => c + 1) falling_closes)
           (map (fun c => c - 1) falling_closes)
           falling_closes.

Definition sample_instrument : Instrument :=
  mkInstrument (1 # 1000) (1 # 1000) (1 # 100) 100.

(* ------------------------------------------------------------------ *)
(** ** Gateway data: candles and leverage *)

(** What [get_klines] can raise on the rows it is given: a row too short
    for [row[i]], or a field that [int] or [float] refuses. *)
Inductive parse_exn : Type :=
| RowIndexError
| ValueError.

Definition pres (A : Type) : Type := (parse_exn + A)%type.

Definition pbind {A B : Type} (m : pres A) (k : A -> pres B) : pres B :=
  match m with
  | inr a => k a
  | inl e => inl e
  end.

Notation "x <-- m ;; k" := (pbind m (fun x => k))
  (at level 61, m at next level, right associativity).

Fixpoint pmapM {A B : Type} (f : A -> pres B) (l : list A) : pres (list B) :=
  match l with
  | [] => inr []
  | a :: l' => b <-- f a ;; bs <-- pmapM f l' ;; inr (b :: bs)
  end.

(** A row of [res["list"]]: a list of strings. *)
Definition Row : Type := list String.string.

(** [row[i]] *)
Definition row_get (row : Row) (i : nat) : pres String.string :=
  match nth_error row i with
  | Some s => inr s
  | None => inl RowIndexError
  end.

(** Insertion by key, before the first element whose key is not smaller:
    folded from the right it sorts and keeps rows of equal key in their
    order, as [sorted] does. *)
Fixpoint insert_keyed (kr : Z * Row) (l : list (Z * Row)) : list (Z * Row) :=
  match l with
  | [] => [kr]
  | kr' :: l' =>
      if (fst kr <=? fst kr')%Z then kr :: l else kr' :: insert_keyed kr l'
  end.

(** [sorted(rows, key=...)] on rows paired with their keys. *)
Definition sorted_keyed (l : list (Z * Row)) : list (Z * Row) :=
  fold_right insert_keyed [] l.

(** One candle: [(open, high, low, close)]. *)
Definition Candle : Type := (Q * Q * Q * Q)%type.

Definition c_open (c : Candle) : Q := fst (fst (fst c)).
Definition c_high (c : Candle) : Q := snd (fst (fst c)).
Definition c_low (c : Candle) : Q := snd (fst c).
Definition c_close (c : Candle) : Q := snd c.

Section GetKlines.

(** The two conversions of Python, [int(s)] and [float(s)], on the strings
    of a row; [None] is their ValueError. *)
Variable py_int : String.string -> option Z.
Variable py_float : String.string -> option Q.

Definition to_int (s : String.string) : pres Z :=
  match py_int s with Some z => inr z | None => inl ValueError end.

Definition to_float (s : String.string) : pres Q :=
  match py_float s with Some q => inr q | None => inl ValueError end.

(** [lambda x: int(x[0])] *)
Definition sort_key (row : Row) : pres Z :=
  s <-- row_get row 0 ;; to_int s.

Definition with_key (row : Row) : pres (Z * Row) :=
  k <-- sort_key row ;; inr (k, row).

(** The body of the loop of [get_klines] on one row. *)
Definition candle_of_row (row : Row) : pres Candle :=
  s1 <-- row_get row 1 ;; o <-- to_float s1 ;;
  s2 <-- row_get row 2 ;; h <-- to_float s2 ;;
  s3 <-- row_get row 3 ;; l <-- to_float s3 ;;
  s4 <-- row_get row 4 ;; c <-- to_float s4 ;;
  inr (o, h, l, c).

(** [get_klines] on the rows the gateway returned. *)
Definition get_klines (rows : list Row) : pres Klines :=
  keyed <-- pmapM with_key rows ;;
  let data := map snd (sorted_keyed keyed) in
  cs <-- pmapM candle_of_row data ;;
  inr (mkKlines (map c_open cs) (map c_high cs) (map c_low cs) (map c_close cs)).

End GetKlines.

(** [int(q)] on a float: towards zero. *)
Definition py_int_of_float (q : Q) : Z :=
  if Qle_bool 0 q then Qfloor q else Qceiling q.

(** The leverage [Bot.__init__] asks for: [min(5, int(max_leverage))]. *)
Definition init_leverage (inst : Instrument) : Z :=
  Z.min 5 (py_int_of_float (max_leverage inst)).

(* ------------------------------------------------------------------ *)
(** ** The position an order stream leaves *)

(** The position the orders sent so far amount to, when each is filled in
    full: none, or the side and quantity of the entry. *)
Definition Held : Type := option (OrderSide * Q).

Definition opposite (s : OrderSide) : OrderSide :=
  match s with Buy => Sell | Sell => Buy end.

Definition same_side (s1 s2 : OrderSide) : bool :=
  match s1, s2 with
  | Buy, Buy | Sell, Sell => true
  | _, _ => false
  end.

(** One order on the held position: an entry needs none held, a
    reduce-only close needs one held, on the other side and of the same
    quantity.  [None] is an order that does not fit. *)
Definition apply_order (h : Held) (o : Order) : option Held :=
  match h with
  | None => if o_reduce_only o then None else Some (Some (o_side o, o_qty o))
  | Some (s, q) =>
      if (o_reduce_only o && same_side (o_side o) (opposite s) && Qeq_bool (o_qty o) q)%bool
      then Some None else None
  end.

Fixpoint apply_orders (h : Held) (os : list Order) : option Held :=
  match os with
  | [] => Some h
  | o :: os' =>
      match apply_order h o with
      | Some h' => apply_orders h' os'
      | None => None
      end
  end.

(** What the [Position] record says is held. *)
Definition held_of (p : Position) : Held :=
  match side p with
  | Flat => None
  | Long => Some (Buy, qty p)
  | Short => Some (Sell, qty p)
  end.

(* ------------------------------------------------------------------ *)
(** ** Flooring to a step and brackets, on doubles *)

Module F64.

(** What float arithmetic can raise here: [x / 0.0], [math.floor] of an
    infinity or of a [int] too large for a double (OverflowError), and
    [math.floor] of a NaN (ValueError). *)
Inductive exn : Type :=
| ZeroDivisionError
| OverflowError
| ValueError.

Definition res (A : Type) : Type := (exn + A)%type.

Definition bind {A B : Type} (m : res A) (k : A -> res B) : res B :=
  match m with
  | inr a => k a
  | inl e => inl e
  end.

(** [a / b] on floats: Python raises on a zero divisor (of either sign),
    and divides as IEEE-754 does otherwise. *)
Definition truediv (a b : float) : res float :=
  if PrimFloat.eqb b 0%float then inl ZeroDivisionError
  else inr (PrimFloat.div a b).

(** [math.floor(x)]: the greatest [int] not above [x].  A finite double is
    [m * 2^e] with its sign; the shift of [Z] rounds towards minus
    infinity. *)
Definition math_floor (x : float) : res Z :=
  match Prim2SF x with
  | S754_zero _ => inr 0%Z
  | S754_finite s m e => inr (Z.shiftl (if s then Z.neg m else Z.pos m) e)
  | S754_infinity _ => inl OverflowError
  | S754_nan => inl ValueError
  end.

(** The conversion of the [int] operand of [int * float]: the nearest
    double, ties to even; an [int] beyond the doubles raises. *)
Definition float_of_int (k : Z) : res float :=
  match binary_normalize prec emax k 0 false with
  | S754_infinity _ => inl OverflowError
  | f => inr (SF2Prim f)
  end.

(** [round_step]: [math.floor(value/step)*step]. *)
Definition round_step (value step : float) : res float :=
  bind (truediv value step) (fun q =>
  bind (math_floor q) (fun k =>
  bind (float_of_int k) (fun kf =>
  inr (PrimFloat.mul kf step)))).

Definition ATR_SL_MULT : float := 1.5%float.
Definition ATR_TP_MULT : float := 2.0%float.

(** [Bot.bracket_prices] with [tick = self.instrument["tick_size"]];
    returns [(tp, sl)]. *)
Definition bracket_prices (tick : float) (sd : Side) (price atr_val : float)
  : res (float * float) :=
  match sd with
  | Long =>
      bind (round_step (PrimFloat.sub price (PrimFloat.mul ATR_SL_MULT atr_val)) tick) (fun s =>
      bind (round_step (PrimFloat.add price (PrimFloat.mul ATR_TP_MULT atr_val)) tick) (fun t =>
      inr (t, s)))
  | _ =>
      bind (round_step (PrimFloat.add price (PrimFloat.mul ATR_SL_MULT atr_val)) tick) (fun s =>
      bind (round_step (PrimFloat.sub price (PrimFloat.mul ATR_TP_MULT atr_val)) tick) (fun t =>
      inr (t, s)))
  end.

End F64.

(* ------------------------------------------------------------------ *)
(** ** Predicates of the statements *)

(** The position invariant of the data model. *)
Definition pos_inv (p : Position) : Prop :=
  side p = Flat -> qty p = 0 /\ sl p = 0 /\ tp p = 0.

(** The price has crossed the tracked stop of an open position. *)
Definition crossed (p : Position) (price : Q) : Prop :=
  match side p with
  | Flat => False
  | Long => price <= sl p
  | Short => sl p <= price
  end.

(** An entry order, as opposed to a reduce-only close. *)
Definition is_entry (o : Order) : bool := negb (o_reduce_only o).

(** The gateway takes every order of the cycle (always so under [DRY_RUN],
    where nothing is posted). *)
Definition accepting (DRY_RUN : bool) (env : Env) : Prop :=
  DRY_RUN = true \/ forall o, post_ok env o = true.

(** [b'] is [b] with possibly another position, one that keeps the
    position invariant if the position of [b] did. *)
Definition keeps (b b' : Bot) : Prop :=
  instrument b' = instrument b
  /\ start_equity b' = start_equity b
  /\ day_start_equity b' = day_start_equity b
  /\ (pos_inv (position b) -> pos_inv (position b')).

(** Every entry order of a log is sent from a flat position, and there is
    at most one. *)
Definition entries_from_flat (p : Position) (os : list Order) : Prop :=
  (length (filter is_entry os) <= 1)%nat
  /\ forall o, In o os -> is_entry o = true -> side p = Flat.

(** Two hundred closes rising by one from 100, each bar one unit either
    side of its close. *)
Definition rising_closes : list Q :=
  map (fun i => inject_Z (100 + Z.of_nat i)) (seq 0 200).

Definition rising_klines : Klines :=
  mkKlines rising_closes
           (map (fun c => c + 1) rising_closes)
           (map (fun c => c - 1) rising_closes)
           rising_closes.

(** Two candles, the last close at 96.5: too short for any indicator. *)
Definition short_klines : Klines :=
  mkKlines [100; 97] [101; 98] [99; 96] [100; 965 # 10].

(** A gateway that reports equity 10000 and takes every order. *)
Definition calm_env (k : Klines) : Env :=
  mkEnv (Ok 10000) (Ok k) (Ok 10000) (fun _ => true).

(** Closed comparisons of rationals, by evaluation. *)
Ltac qcompute :=
  repeat split;
  try reflexivity;
  try (vm_compute; reflexivity);
  try (vm_compute; let Hcmp := fresh in intro Hcmp; discriminate Hcmp);
  try (apply Qlt_not_le; vm_compute; reflexivity).

(* ================================================================== *)
(** * Properties *)

(** ** Comparisons and arithmetic of the float model *)

Lemma Qltb_lt (a b : Q) : Qltb a b = true <-> a < b.
Proof.
  unfold Qltb. rewrite negb_true_iff.
  split; intro H.
  - apply Qnot_le_lt. intro Hle. apply Qle_bool_iff in Hle. congruence.
  - destruct (Qle_bool b a) eqn:E; [|reflexivity].
    apply Qle_bool_iff in E. exfalso. apply (Qlt_not_le _ _ H E).
Qed.

Lemma Qltb_ge (a b : Q) : Qltb a b = false <-> b <= a.
Proof.
  unfold Qltb. rewrite negb_false_iff. apply Qle_bool_iff.
Qed.

Lemma Qle_bool_false (a b : Q) : Qle_bool a b = false <-> b < a.
Proof.
  rewrite <- Qltb_lt. unfold Qltb. rewrite negb_true_iff. reflexivity.
Qed.

Lemma Qeq_bool_false (a b : Q) : Qeq_bool a b = false <-> ~ a == b.
Proof.
  split; intro H.
  - intro E. apply Qeq_bool_iff in E. congruence.
  - destruct (Qeq_bool a b) eqn:E; [|reflexivity].
    apply Qeq_bool_iff in E. contradiction.
Qed.

Lemma py_max_ge_l (a b : Q) : a <= py_max a b.
Proof.
  unfold py_max. destruct (Qltb a b) eqn:E.
  - apply Qltb_lt in E. lra.
  - lra.
Qed.

Lemma py_max_ge_r (a b : Q) : b <= py_max a b.
Proof.
  unfold py_max. destruct (Qltb a b) eqn:E.
  - lra.
  - apply Qltb_ge in E. exact E.
Qed.

Lemma py_max_cases (a b : Q) :
  (a < b /\ py_max a b = b) \/ (b <= a /\ py_max a b = a).
Proof.
  unfold py_max. destruct (Qltb a b) eqn:E.
  - left. apply Qltb_lt in E. auto.
  - right. apply Qltb_ge in E. auto.
Qed.

Lemma py_min_cases (a b : Q) :
  (b < a /\ py_min a b = b) \/ (a <= b /\ py_min a b = a).
Proof.
  unfold py_min. destruct (Qltb b a) eqn:E.
  - left. apply Qltb_lt in E. auto.
  - right. apply Qltb_ge in E. auto.
Qed.

Lemma py_min_le_l (a b : Q) : py_min a b <= a.
Proof. destruct (py_min_cases a b) as [[H ->]|[H ->]]; lra. Qed.


Lemma py_div_ok (a b : Q) : ~ b == 0 -> py_div a b = Ok (a / b).
Proof.
  intro H. unfold py_div. apply Qeq_bool_false in H. rewrite H. reflexivity.
Qed.

Lemma usable_Some (v : option Q) (a : Q) :
  usable v = Some a <-> v = Some a /\ ~ a == 0.
Proof.
  unfold usable. destruct v as [q|].
  - destruct (Qeq_bool q 0) eqn:E.
    + split; [discriminate|]. intros [Hq Hn]. inversion Hq; subst.
      apply Qeq_bool_iff in E. contradiction.
    + split.
      * intro H. inversion H; subst. split; [reflexivity|].
        apply Qeq_bool_false. exact E.
      * intros [Hq _]. exact Hq.
  - split; [discriminate|]. intros [H _]. discriminate.
Qed.

Lemma usable_truthy (v : option Q) :
  truthy v = true <-> exists a, usable v = Some a.
Proof.
  unfold truthy, usable. destruct v as [q|].
  - destruct (Qeq_bool q 0); simpl; split; intro H;
      try discriminate; try (exists q; reflexivity); try reflexivity.
    destruct H as [a Ha]. discriminate.
  - split; [discriminate|]. intros [a Ha]. discriminate.
Qed.

(** Flooring to a positive step rounds down, by less than one step. *)
Lemma round_step_floor (value step : Q) :
  0 < step ->
  exists r, round_step value step = Ok r
    /\ r = inject_Z (Qfloor (value / step)) * step
    /\ r <= value /\ value < r + step.
Proof.
  intro Hs. unfold round_step. rewrite py_div_ok by lra. unfold rbind.
  eexists. split; [reflexivity|]. split; [reflexivity|].
  unfold py_floor.
  pose proof (Qfloor_le (value / step)) as Hlo.
  pose proof (Qlt_floor (value / step)) as Hhi.
  rewrite inject_Z_plus in Hhi.
  assert (Hv : value == (value / step) * step) by (field; lra).
  remember (value / step) as d eqn:Hd.
  remember (inject_Z (Qfloor d)) as f eqn:Hf.
  clear Hd Hf.
  assert (H1 : f * step <= d * step) by (apply Qmult_le_compat_r; lra).
  change (inject_Z 1) with 1 in Hhi.
  assert (H2 : d * step < (f + 1) * step) by (apply Qmult_lt_compat_r; lra).
  split; lra.
Qed.

(* ------------------------------------------------------------------ *)
(** ** Circuit breakers *)

(** The daily-loss test is made first: when it fires, the answer is Pause
    whatever the drawdown test would say. *)
Lemma circuit_breakers_daily_first (b : Bot) (equity : Q) :
  0 < day_start_equity b ->
  (equity - day_start_equity b) / day_start_equity b <= - DAILY_LOSS_LIMIT ->
  circuit_breakers b equity = Pause.
Proof.
  intros Hpos Hloss. unfold circuit_breakers.
  apply Qltb_lt in Hpos. apply Qle_bool_iff in Hloss.
  rewrite Hpos, Hloss. reflexivity.
Qed.

(** With the two baselines equal, as [__init__] leaves them, the drawdown
    branch is never reached. *)
Lemma circuit_breakers_same_baseline (b : Bot) (equity : Q) :
  day_start_equity b = start_equity b ->
  circuit_breakers b equity <> Halt.
Proof.
  intro Hsame. unfold circuit_breakers. rewrite Hsame.
  destruct (Qltb 0 (start_equity b)) eqn:Hpos; simpl; [|discriminate].
  remember ((equity - start_equity b) / start_equity b) as r eqn:Hr. clear Hr.
  destruct (Qle_bool r (- DAILY_LOSS_LIMIT)) eqn:Hd; [discriminate|].
  destruct (Qle_bool r (- GLOBAL_DD_LIMIT)) eqn:Hg; [|discriminate].
  apply Qle_bool_false in Hd. apply Qle_bool_iff in Hg.
  unfold DAILY_LOSS_LIMIT in Hd. unfold GLOBAL_DD_LIMIT in Hg. lra.
Qed.

(** C1 (evaluation of the code where the claim fails).  Equity 9400 against
    both baselines 10000 is a 6% loss: the Pause condition and the Halt
    condition both hold, and [circuit_breakers] answers Pause, not Halt: the
    daily-loss test comes first in the code. *)
Theorem circuit_breakers_pause_shadows_halt :
  let b := Bot_init sample_instrument 10000 in
  (9400 - day_start_equity b) / day_start_equity b <= - DAILY_LOSS_LIMIT /\
  (9400 - start_equity b) / start_equity b <= - GLOBAL_DD_LIMIT /\
  circuit_breakers b 9400 = Pause.
Proof. qcompute. Qed.

(* ------------------------------------------------------------------ *)
(** ** Brackets *)

(** The formula of the brackets on exact rationals.  For a positive price
    tick it gives, for a long, the stop [price - 1.5 atr] and the target
    [price + 2 atr], and for a short the stop [price + 1.5 atr] and the
    target [price - 2 atr], each replaced by the greatest multiple of the
    tick that does not exceed it: the same floor for both levels on both
    sides.  This is the computation the code writes down; on doubles it
    lands elsewhere, see [F64.bracket_prices] below. *)
Lemma bracket_prices_floor (inst : Instrument) (price atr_val : Q) :
  0 < tick_size inst ->
  let tick := tick_size inst in
  let fl v := inject_Z (Qfloor (v / tick)) * tick in
  bracket_prices inst Long price atr_val
    = Ok (fl (price + ATR_TP_MULT * atr_val), fl (price - ATR_SL_MULT * atr_val))
  /\ bracket_prices inst Short price atr_val
    = Ok (fl (price - ATR_TP_MULT * atr_val), fl (price + ATR_SL_MULT * atr_val))
  /\ forall v, fl v <= v /\ v < fl v + tick.
Proof.
  intros Ht tick fl.
  assert (Hrs : forall v, round_step v tick = Ok (fl v)
                          /\ fl v <= v /\ v < fl v + tick).
  { intro v. destruct (round_step_floor v tick Ht) as [r [Hr [Heq [Hlo Hhi]]]].
    subst r. auto. }
  split; [|split].
  - unfold bracket_prices. fold tick.
    destruct (Hrs (price - ATR_SL_MULT * atr_val)) as [-> _].
    destruct (Hrs (price + ATR_TP_MULT * atr_val)) as [-> _].
    reflexivity.
  - unfold bracket_prices. fold tick.
    destruct (Hrs (price + ATR_SL_MULT * atr_val)) as [-> _].
    destruct (Hrs (price - ATR_TP_MULT * atr_val)) as [-> _].
    reflexivity.
  - intro v. apply Hrs.
Qed.

Lemma bracket_prices_floor_witness :
  0 < tick_size sample_instrument /\
  bracket_prices sample_instrument Long 100 2
    = Ok (inject_Z (Qfloor ((100 + ATR_TP_MULT * 2) / (1 # 100))) * (1 # 100),
          inject_Z (Qfloor ((100 - ATR_SL_MULT * 2) / (1 # 100))) * (1 # 100)).
Proof.
  split; [reflexivity|].
  apply (bracket_prices_floor sample_instrument 100 2). reflexivity.
Defined.

(** C8 (evaluation of the code where the claim fails).  Entry price
    1000.56, ATR 2.0, price tick 0.01.  The levels before flooring are whole
    numbers of ticks, 997.56 and 1004.56 for a long, 1003.56 and 996.56 for
    a short, so that flooring them to the tick leaves them where they are:
    that is what the formula gives on exact rationals.  On doubles
    [bracket_prices] returns 997.55000000000007 and 1004.5500000000001 for
    the long, 1003.5500000000001 and 996.55000000000007 for the short: every
    level is below the floor, a whole tick short of it but for the last
    digits, and none of them is the double of a price with two decimals.
    At an entry price of 1000.0 the same code returns the floored levels,
    1004 and 997. *)
Theorem bracket_prices_double_misses_tick :
  F64.bracket_prices 0.01 Long 1000.56 2
    = inr (1004.5500000000001, 997.55000000000007)%float
  /\ F64.bracket_prices 0.01 Short 1000.56 2
    = inr (996.55000000000007, 1003.5500000000001)%float
  /\ bracket_prices sample_instrument Long (100056 # 100) 2
    = Ok (100456 # 100, 99756 # 100)
  /\ bracket_prices sample_instrument Short (100056 # 100) 2
    = Ok (99656 # 100, 100356 # 100)
  /\ (PrimFloat.ltb 1004.5500000000001 1004.56
      && PrimFloat.ltb 997.55000000000007 997.56
      && PrimFloat.ltb 996.55000000000007 996.56
      && PrimFloat.ltb 1003.5500000000001 1003.56)%bool = true
  /\ (PrimFloat.eqb 1004.5500000000001 1004.55
      || PrimFloat.eqb 997.55000000000007 997.55
      || PrimFloat.eqb 996.55000000000007 996.55
      || PrimFloat.eqb 1003.5500000000001 1003.55)%bool = false
  /\ F64.bracket_prices 0.01 Long 1000 2 = inr (1004, 997)%float.
Proof. repeat split; vm_compute; reflexivity. Qed.

(* ------------------------------------------------------------------ *)
(** ** Signal engine *)

Lemma truthy_Some (q : Q) : ~ q == 0 -> truthy (Some q) = true.
Proof.
  intro H. unfold truthy. apply Qeq_bool_false in H. rewrite H. reflexivity.
Qed.

(** With the four indicators present and different from [0.0], the two
    signals are the entry conditions. *)
Lemma long_sig_spec (e sf ss r : Q) (a : option Q) (c : Q) :
  ~ e == 0 -> ~ sf == 0 -> ~ ss == 0 -> ~ r == 0 ->
  long_sig (mkSnapshot (Some e) (Some sf) (Some ss) (Some r) a c) = true
  <-> (ss < sf /\ e < c /\ RSI_LONG < r).
Proof.
  intros He Hsf Hss Hr.
  unfold long_sig, both_and_gt, and_price_gt, and_gt.
  cbn [x_ema200 x_sfast x_sslow x_rsi x_close].
  rewrite !truthy_Some by assumption. cbn [andb].
  rewrite !andb_true_iff, !Qltb_lt. tauto.
Qed.

Lemma short_sig_spec (e sf ss r : Q) (a : option Q) (c : Q) :
  ~ e == 0 -> ~ sf == 0 -> ~ ss == 0 -> ~ r == 0 ->
  short_sig (mkSnapshot (Some e) (Some sf) (Some ss) (Some r) a c) = true
  <-> (sf < ss /\ c < e /\ r < RSI_SHORT).
Proof.
  intros He Hsf Hss Hr.
  unfold short_sig, both_and_lt, and_price_lt, and_lt.
  cbn [x_ema200 x_sfast x_sslow x_rsi x_close].
  rewrite !truthy_Some by assumption. cbn [andb].
  rewrite !andb_true_iff, !Qltb_lt. tauto.
Qed.

(** An indicator that is [None] switches off both signals. *)
Lemma signals_need_indicators (x : Snapshot) :
  x_ema200 x = None \/ x_sfast x = None \/ x_sslow x = None \/ x_rsi x = None ->
  long_sig x = false /\ short_sig x = false.
Proof.
  unfold long_sig, short_sig, both_and_gt, both_and_lt,
    and_price_gt, and_price_lt, and_gt, and_lt.
  intros [H|[H|[H|H]]]; rewrite H; simpl;
    rewrite ?andb_false_r; auto.
Qed.

(** X13.  Flat, with the four indicators present and non-zero: the decision is
    the one the entry conditions give. *)
Lemma decide_flat_nonzero (e sf ss r : Q) (a : option Q) (c : Q) (p : Position) :
  ~ e == 0 -> ~ sf == 0 -> ~ ss == 0 -> ~ r == 0 ->
  side p = Flat ->
  let x := mkSnapshot (Some e) (Some sf) (Some ss) (Some r) a c in
  (fst (decide x p) = open_long <-> (ss < sf /\ e < c /\ RSI_LONG < r))
  /\ (fst (decide x p) = open_short <-> (sf < ss /\ c < e /\ r < RSI_SHORT))
  /\ (fst (decide x p) = hold <->
        ~ (ss < sf /\ e < c /\ RSI_LONG < r) /\ ~ (sf < ss /\ c < e /\ r < RSI_SHORT)).
Proof.
  intros He Hsf Hss Hr Hflat x.
  pose proof (long_sig_spec e sf ss r a c He Hsf Hss Hr) as HL.
  pose proof (short_sig_spec e sf ss r a c He Hsf Hss Hr) as HS.
  fold x in HL, HS.
  unfold decide. rewrite Hflat.
  assert (HL' : long_sig x = false -> ~ (ss < sf /\ e < c /\ RSI_LONG < r)).
  { intros E H. apply HL in H. congruence. }
  assert (HS' : short_sig x = false -> ~ (sf < ss /\ c < e /\ r < RSI_SHORT)).
  { intros E H. apply HS in H. congruence. }
  destruct (long_sig x) eqn:EL; [|destruct (short_sig x) eqn:ES]; simpl.
  - assert (H1 : ss < sf /\ e < c /\ RSI_LONG < r) by (apply HL; reflexivity).
    assert (H2 : ~ (sf < ss /\ c < e /\ r < RSI_SHORT)) by (intro; lra).
    split; [|split]; split; intro H; try discriminate; try reflexivity; tauto.
  - assert (H2 : sf < ss /\ c < e /\ r < RSI_SHORT) by (apply HS; reflexivity).
    specialize (HL' eq_refl).
    split; [|split]; split; intro H; try discriminate; try reflexivity; tauto.
  - specialize (HL' eq_refl). specialize (HS' eq_refl).
    split; [|split]; split; intro H; try discriminate; try reflexivity; tauto.
Qed.

(** C3 (evaluation of the code where the claim fails).  Flat, all four
    indicators present, [smaFast = 90 < smaSlow = 100], [close = 80 <
    emaTrend = 110] and [rsi = 0 < 45]: the short-entry condition holds, yet
    [decide] answers hold, because its test [x["rsi"] and ...] takes the
    value [0.0] for a missing one. *)
Theorem decide_flat_rsi_zero_holds :
  let x := mkSnapshot (Some 110) (Some 90) (Some 100) (Some 0) (Some 2) 80 in
  (90 < 100 /\ x_close x < 110 /\ 0 < RSI_SHORT)
  /\ decide x Position0 = (hold, Position0).
Proof. qcompute. Qed.

(** The same on candles: two hundred falling closes give every indicator
    a value, RSI exactly zero, the short-entry condition, and hold. *)
Lemma decide_falling_market_holds :
  exists x e sf ss r,
    compute_indicators falling_klines = Ok x
    /\ x_ema200 x = Some e /\ x_sfast x = Some sf /\ x_sslow x = Some ss
    /\ x_rsi x = Some r
    /\ r == 0
    /\ (sf < ss /\ x_close x < e /\ r < RSI_SHORT)
    /\ fst (decide x Position0) = hold.
Proof.
  eexists _, _, _, _, _.
  split; [vm_compute; reflexivity|].
  split; [reflexivity|]. split; [reflexivity|].
  split; [reflexivity|]. split; [reflexivity|].
  qcompute.
Qed.

(* ------------------------------------------------------------------ *)
(** ** Trailing stop *)

Lemma decide_side (x : Snapshot) (p : Position) : side (snd (decide x p)) = side p.
Proof.
  unfold decide.
  destruct (side p) eqn:Hs.
  - destruct (long_sig x); [|destruct (short_sig x)]; simpl; exact Hs.
  - destruct (usable (x_atr x)) as [a|];
      [destruct (Qltb (sl p) _)|]; destruct (short_sig x); simpl; exact Hs.
  - destruct (usable (x_atr x)) as [a|];
      [destruct (Qltb _ (sl p))|]; destruct (long_sig x); simpl; exact Hs.
Qed.

(** [decide] touches nothing but the stop. *)
Lemma decide_frame (x : Snapshot) (p : Position) :
  entry (snd (decide x p)) = entry p
  /\ qty (snd (decide x p)) = qty p
  /\ tp (snd (decide x p)) = tp p.
Proof.
  unfold decide.
  destruct (side p).
  - destruct (long_sig x); [|destruct (short_sig x)]; simpl; auto.
  - destruct (usable (x_atr x)) as [a|];
      [destruct (Qltb (sl p) _)|]; destruct (short_sig x); simpl; auto.
  - destruct (usable (x_atr x)) as [a|];
      [destruct (Qltb _ (sl p))|]; destruct (long_sig x); simpl; auto.
Qed.

(** The stop after one evaluation, case by case. *)
Lemma decide_sl (x : Snapshot) (p : Position) :
  sl (snd (decide x p)) =
  match side p, usable (x_atr x) with
  | Long, Some a => py_max (sl p) (x_close x - ATR_SL_MULT * a)
  | Short, Some a => py_min (sl p) (x_close x + ATR_SL_MULT * a)
  | _, _ => sl p
  end.
Proof.
  unfold decide.
  destruct (side p).
  - destruct (long_sig x); [|destruct (short_sig x)]; reflexivity.
  - destruct (usable (x_atr x)) as [a|].
    + assert (E : sl (if Qltb (sl p) (py_max (sl p) (x_close x - ATR_SL_MULT * a))
                      then set_sl p (py_max (sl p) (x_close x - ATR_SL_MULT * a))
                      else p)
                  = py_max (sl p) (x_close x - ATR_SL_MULT * a)).
      { destruct (py_max_cases (sl p) (x_close x - ATR_SL_MULT * a)) as [[H E]|[H E]];
          rewrite E.
        - apply Qltb_lt in H. rewrite H. reflexivity.
        - assert (H' : Qltb (sl p) (sl p) = false) by (apply Qltb_ge; lra).
          rewrite H'. reflexivity. }
      destruct (short_sig x); simpl; exact E.
    + destruct (short_sig x); reflexivity.
  - destruct (usable (x_atr x)) as [a|].
    + assert (E : sl (if Qltb (py_min (sl p) (x_close x + ATR_SL_MULT * a)) (sl p)
                      then set_sl p (py_min (sl p) (x_close x + ATR_SL_MULT * a))
                      else p)
                  = py_min (sl p) (x_close x + ATR_SL_MULT * a)).
      { destruct (py_min_cases (sl p) (x_close x + ATR_SL_MULT * a)) as [[H E]|[H E]];
          rewrite E.
        - apply Qltb_lt in H. rewrite H. reflexivity.
        - assert (H' : Qltb (sl p) (sl p) = false) by (apply Qltb_ge; lra).
          rewrite H'. reflexivity. }
      destruct (long_sig x); simpl; exact E.
    + destruct (long_sig x); reflexivity.
Qed.

Lemma decide_sl_long (x : Snapshot) (p : Position) :
  side p = Long -> sl p <= sl (snd (decide x p)).
Proof.
  intro Hs. rewrite decide_sl, Hs.
  destruct (usable (x_atr x)); [apply py_max_ge_l|lra].
Qed.

Lemma decide_sl_short (x : Snapshot) (p : Position) :
  side p = Short -> sl (snd (decide x p)) <= sl p.
Proof.
  intro Hs. rewrite decide_sl, Hs.
  destruct (usable (x_atr x)); [apply py_min_le_l|lra].
Qed.

Lemma decide_all_app (xs ys : list Snapshot) (p : Position) :
  decide_all (xs ++ ys) p = decide_all ys (decide_all xs p).
Proof. unfold decide_all. apply fold_left_app. Qed.

Lemma decide_all_side (xs : list Snapshot) (p : Position) :
  side (decide_all xs p) = side p.
Proof.
  revert p. induction xs as [|x xs IH]; intro p; simpl; [reflexivity|].
  change (side (decide_all xs (snd (decide x p))) = side p).
  rewrite IH. apply decide_side.
Qed.

Lemma decide_all_sl_long (xs : list Snapshot) (p : Position) :
  side p = Long -> sl p <= sl (decide_all xs p).
Proof.
  revert p. induction xs as [|x xs IH]; intros p Hs; simpl; [lra|].
  change (sl p <= sl (decide_all xs (snd (decide x p)))).
  apply Qle_trans with (sl (snd (decide x p))).
  - apply decide_sl_long. exact Hs.
  - apply IH. rewrite decide_side. exact Hs.
Qed.

Lemma decide_all_sl_short (xs : list Snapshot) (p : Position) :
  side p = Short -> sl (decide_all xs p) <= sl p.
Proof.
  revert p. induction xs as [|x xs IH]; intros p Hs; simpl; [lra|].
  change (sl (decide_all xs (snd (decide x p))) <= sl p).
  apply Qle_trans with (sl (snd (decide x p))).
  - apply IH. rewrite decide_side. exact Hs.
  - apply decide_sl_short. exact Hs.
Qed.

(** C5 (as amended).  Along any sequence of consecutive evaluations of
    [decide] on an open position the side never changes; the stop of a long
    is at every later evaluation at least what it was at any earlier one,
    the stop of a short at most.  One evaluation with an ATR that is present
    and not zero sets the stop to [max(stop, close - 1.5 atr)] for a long and
    [min(stop, close + 1.5 atr)] for a short; with no ATR the stop stays. *)
Theorem trailing_stop_monotone (p : Position) (xs ys : list Snapshot) (x : Snapshot) :
  side p <> Flat ->
  side (decide_all xs p) = side p
  /\ (side p = Long -> sl (decide_all xs p) <= sl (decide_all (xs ++ ys) p))
  /\ (side p = Short -> sl (decide_all (xs ++ ys) p) <= sl (decide_all xs p))
  /\ (forall a, x_atr x = Some a -> ~ a == 0 ->
        sl (snd (decide x p)) =
        match side p with
        | Long => py_max (sl p) (x_close x - ATR_SL_MULT * a)
        | _ => py_min (sl p) (x_close x + ATR_SL_MULT * a)
        end)
  /\ (x_atr x = None -> sl (snd (decide x p)) = sl p).
Proof.
  intro Hopen.
  split; [apply decide_all_side|].
  split; [|split; [|split]].
  - intro Hs. rewrite decide_all_app. apply decide_all_sl_long.
    rewrite decide_all_side. exact Hs.
  - intro Hs. rewrite decide_all_app. apply decide_all_sl_short.
    rewrite decide_all_side. exact Hs.
  - intros a Ha Hnz. rewrite decide_sl.
    assert (Hu : usable (x_atr x) = Some a) by (apply usable_Some; auto).
    rewrite Hu. destruct (side p); [contradiction|reflexivity|reflexivity].
  - intro Ha. rewrite decide_sl, Ha. simpl. destruct (side p); reflexivity.
Qed.

Lemma trailing_stop_monotone_witness :
  let p := mkPosition Long 100 1 97 104 in
  let x1 := mkSnapshot None None None None (Some 2) 102 in
  let x2 := mkSnapshot None None None None (Some 2) 101 in
  side p <> Flat
  /\ sl (decide_all [x1] p) <= sl (decide_all ([x1] ++ [x2]) p)
  /\ sl (snd (decide x1 p)) = py_max 97 (102 - ATR_SL_MULT * 2).
Proof.
  intros p x1 x2.
  assert (Hopen : side p <> Flat) by discriminate.
  destruct (trailing_stop_monotone p [x1] [x2] x1 Hopen) as [_ [HL [_ [Hf _]]]].
  split; [exact Hopen|].
  split; [apply HL; reflexivity|].
  apply (Hf 2); [reflexivity|].
  vm_compute. discriminate.
Defined.

(** C5 as stated fails: a long with stop 90, close 100 and an ATR that is
    present and equal to zero keeps its stop at 90, where
    [max(stop, close - 1.5 atr)] is 100. *)
Lemma trailing_stop_zero_atr_counterexample :
  let p := mkPosition Long 95 1 90 110 in
  let x := mkSnapshot None None None None (Some 0) 100 in
  x_atr x = Some 0
  /\ sl (snd (decide x p)) = 90
  /\ py_max (sl p) (x_close x - ATR_SL_MULT * 0) == 100
  /\ ~ sl (snd (decide x p)) == py_max (sl p) (x_close x - ATR_SL_MULT * 0).
Proof. qcompute. Qed.

(* ------------------------------------------------------------------ *)
(** ** Position sizing *)

Lemma round_half_even_upper (x : Q) : inject_Z (round_half_even x) <= x + (1 # 2).
Proof.
  unfold round_half_even.
  pose proof (Qfloor_le x) as Hlo.
  pose proof (Qlt_floor x) as Hhi.
  rewrite inject_Z_plus in Hhi. change (inject_Z 1) with 1 in Hhi.
  remember (inject_Z (Qfloor x)) as f eqn:Hf.
  destruct (Qltb (x - f) (1 # 2)) eqn:E1.
  - rewrite <- Hf. lra.
  - apply Qltb_ge in E1.
    destruct (Qltb (1 # 2) (x - f)) eqn:E2.
    + rewrite inject_Z_plus, <- Hf. change (inject_Z 1) with 1. lra.
    + destruct (Z.even (Qfloor x)).
      * rewrite <- Hf. lra.
      * rewrite inject_Z_plus, <- Hf. change (inject_Z 1) with 1. lra.
Qed.

Lemma round_half_even_lower (x : Q) : x - (1 # 2) <= inject_Z (round_half_even x).
Proof.
  unfold round_half_even.
  pose proof (Qfloor_le x) as Hlo.
  pose proof (Qlt_floor x) as Hhi.
  rewrite inject_Z_plus in Hhi. change (inject_Z 1) with 1 in Hhi.
  remember (inject_Z (Qfloor x)) as f eqn:Hf.
  destruct (Qltb (x - f) (1 # 2)) eqn:E1.
  - apply Qltb_lt in E1. rewrite <- Hf. lra.
  - destruct (Qltb (1 # 2) (x - f)) eqn:E2.
    + rewrite inject_Z_plus, <- Hf. change (inject_Z 1) with 1. lra.
    + apply Qltb_ge in E2.
      destruct (Z.even (Qfloor x)).
      * rewrite <- Hf. lra.
      * rewrite inject_Z_plus, <- Hf. change (inject_Z 1) with 1. lra.
Qed.

(** The six-decimal rounding moves a quantity by at most half a millionth. *)
Lemma fmt6_upper (q : Q) : fmt6 q <= q + (1 # 2000000).
Proof.
  unfold fmt6.
  pose proof (round_half_even_upper (q * 1000000)) as H.
  remember (inject_Z (round_half_even (q * 1000000))) as z eqn:Hz. clear Hz.
  apply Qle_shift_div_r; [reflexivity|]. lra.
Qed.

Lemma fmt6_lower (q : Q) : q - (1 # 2000000) <= fmt6 q.
Proof.
  unfold fmt6.
  pose proof (round_half_even_lower (q * 1000000)) as H.
  remember (inject_Z (round_half_even (q * 1000000))) as z eqn:Hz. clear Hz.
  apply Qle_shift_div_l; [reflexivity|]. lra.
Qed.




(* ------------------------------------------------------------------ *)
(** ** Indicators: indexing and slices *)

Lemma py_index_neg (values : list Q) (i : Z) :
  (- len values <= i < 0)%Z ->
  py_index values i = Ok (nth (Z.to_nat (i + len values)) values 0).
Proof.
  intros [Hlo Hhi]. unfold py_index.
  assert (E1 : (i <? 0)%Z = true) by (apply Z.ltb_lt; lia).
  rewrite E1.
  assert (E2 : (0 <=? i + len values)%Z = true) by (apply Z.leb_le; lia).
  assert (E3 : (i + len values <? len values)%Z = true) by (apply Z.ltb_lt; lia).
  rewrite E2, E3. reflexivity.
Qed.

Lemma py_index_pos (values : list Q) (i : Z) :
  (0 <= i < len values)%Z ->
  py_index values i = Ok (nth (Z.to_nat i) values 0).
Proof.
  intros [Hlo Hhi]. unfold py_index.
  assert (E1 : (i <? 0)%Z = false) by (apply Z.ltb_ge; lia).
  rewrite E1.
  assert (E2 : (0 <=? i)%Z = true) by (apply Z.leb_le; lia).
  assert (E3 : (i <? len values)%Z = true) by (apply Z.ltb_lt; lia).
  rewrite E2, E3. reflexivity.
Qed.

Lemma py_range_length (a b : Z) : length (py_range a b) = Z.to_nat (b - a).
Proof. unfold py_range. rewrite length_map, length_seq. reflexivity. Qed.

Lemma py_range_In (a b i : Z) : In i (py_range a b) -> (a <= i < b)%Z.
Proof.
  unfold py_range. intro H. apply in_map_iff in H.
  destruct H as [k [Hk Hin]]. apply in_seq in Hin. lia.
Qed.

Lemma py_range_nth (a b : Z) (k : nat) (d : Z) :
  (k < Z.to_nat (b - a))%nat -> nth k (py_range a b) d = (a + Z.of_nat k)%Z.
Proof.
  intro Hk. unfold py_range.
  pose proof (map_nth (fun j => (a + Z.of_nat j)%Z)
                (seq 0 (Z.to_nat (b - a))) 0%nat k) as E.
  cbv beta in E.
  rewrite (nth_indep _ d (a + Z.of_nat 0)%Z)
    by (rewrite length_map, length_seq; exact Hk).
  rewrite E, seq_nth by exact Hk. reflexivity.
Qed.

Lemma mapM_ok {A B : Type} (f : A -> res B) (g : A -> B) (l : list A) :
  (forall a, In a l -> f a = Ok (g a)) -> mapM f l = Ok (map g l).
Proof.
  induction l as [|a l IH]; intro H; simpl; [reflexivity|].
  rewrite (H a) by (left; reflexivity). simpl.
  rewrite IH by (intros a' Ha'; apply H; right; exact Ha'). reflexivity.
Qed.

Lemma foldM_rsi_step (values : list Q) (idx : list Z) (s : Q * Q) :
  (forall i, In i idx -> (1 - len values <= i < 0)%Z) ->
  foldM (rsi_step values) idx s = Ok (fold_left rsi_acc (map (diff_at values) idx) s).
Proof.
  revert s. induction idx as [|i idx IH]; intros s H; simpl; [reflexivity|].
  assert (Hi : (1 - len values <= i < 0)%Z) by (apply H; left; reflexivity).
  unfold rsi_step at 1.
  rewrite py_index_neg by lia. unfold rbind at 1.
  rewrite py_index_neg by lia. unfold rbind at 1. unfold rbind at 1.
  fold (diff_at values i).
  apply IH. intros j Hj. apply H. right. exact Hj.
Qed.

Lemma diffs_length (values : list Q) : length (diffs values) = pred (length values).
Proof.
  induction values as [|a [|b t] IH]; simpl; try reflexivity.
  simpl in IH. rewrite IH. reflexivity.
Qed.

Lemma diffs_nth (values : list Q) (j : nat) :
  (S j < length values)%nat ->
  nth j (diffs values) 0 = nth (S j) values 0 - nth j values 0.
Proof.
  revert j. induction values as [|a [|b t] IH]; intros j Hj; simpl in Hj; try lia.
  destruct j as [|j].
  - reflexivity.
  - change (nth j (diffs (b :: t)) 0 = nth (S j) (b :: t) 0 - nth j (b :: t) 0).
    apply IH. simpl. lia.
Qed.

(** The differences the loop reads are the last [n] differences. *)
Lemma rsi_reads_last_diffs (values : list Q) (n : Z) :
  (n + 1 <= len values)%Z ->
  map (diff_at values) (py_range (- n) 0) = last_n (Z.to_nat n) (diffs values).
Proof.
  intro Hn. unfold len in Hn.
  assert (HN : Z.to_nat (0 - - n) = Z.to_nat n) by (f_equal; lia).
  apply (nth_ext _ _ 0 0).
  - rewrite length_map, py_range_length, HN.
    unfold last_n. rewrite length_skipn, diffs_length. lia.
  - intros k Hk. rewrite length_map, py_range_length, HN in Hk.
    rewrite (nth_indep _ 0 (diff_at values 0))
      by (rewrite length_map, py_range_length, HN; exact Hk).
    rewrite map_nth. rewrite py_range_nth by (rewrite HN; exact Hk).
    unfold last_n. rewrite nth_skipn, diffs_length.
    rewrite diffs_nth by lia.
    unfold diff_at, len. f_equal; f_equal; lia.
Qed.

(* ------------------------------------------------------------------ *)
(** ** RSI *)

Lemma gains_of_nonneg (ds : list Q) : 0 <= gains_of ds.
Proof.
  unfold gains_of. induction ds as [|d ds IH]; simpl; [lra|].
  destruct (Qle_bool 0 d) eqn:E; simpl; [|exact IH].
  apply Qle_bool_iff in E. lra.
Qed.

Lemma losses_of_nonneg (ds : list Q) : 0 <= losses_of ds.
Proof.
  unfold losses_of. induction ds as [|d ds IH]; simpl; [lra|].
  destruct (Qle_bool 0 d) eqn:E; simpl; [exact IH|].
  pose proof (Qabs_nonneg d). lra.
Qed.

(** The two accumulators of the loop are the two sums of the
    specification, added to their starting values. *)
Lemma rsi_acc_sums (ds : list Q) (g l : Q) :
  fst (fold_left rsi_acc ds (g, l)) == g + gains_of ds
  /\ snd (fold_left rsi_acc ds (g, l)) == l + losses_of ds.
Proof.
  revert g l. induction ds as [|d ds IH]; intros g l.
  - unfold gains_of, losses_of. simpl. split; ring.
  - simpl fold_left.
    assert (Hstep : rsi_acc (g, l) d
                    = if Qle_bool 0 d then (g + d, l) else (g, l - d))
      by reflexivity.
    rewrite Hstep.
    unfold gains_of, losses_of in *. simpl filter.
    destruct (Qle_bool 0 d) eqn:E; simpl negb; cbv iota.
    + destruct (IH (g + d) l) as [H1 H2]. split.
      * rewrite H1. simpl sumQ. ring.
      * exact H2.
    + destruct (IH g (l - d)) as [H1 H2]. split.
      * exact H1.
      * rewrite H2. simpl map. simpl sumQ.
        apply Qle_bool_false in E.
        rewrite (Qabs_neg d) by lra. ring.
Qed.

Lemma Qeq_bool_compat (a b c : Q) : a == b -> Qeq_bool a c = Qeq_bool b c.
Proof.
  intro H. destruct (Qeq_bool b c) eqn:E.
  - apply Qeq_bool_iff. apply Qeq_bool_iff in E. rewrite H. exact E.
  - apply Qeq_bool_false. apply Qeq_bool_false in E. rewrite H. exact E.
Qed.

(** What [rsi] computes once the length test has passed. *)
Lemma rsi_enough (values : list Q) (n : Z) :
  (n + 1 <= len values)%Z ->
  exists q, rsi values n = Ok (Some q) /\ q == rsi_spec values n.
Proof.
  intro Hn. unfold rsi.
  assert (E : (len values <? n + 1)%Z = false) by (apply Z.ltb_ge; lia).
  rewrite E.
  rewrite foldM_rsi_step
    by (intros i Hi; apply py_range_In in Hi; lia).
  rewrite rsi_reads_last_diffs by exact Hn.
  unfold rbind at 1. unfold rsi_spec.
  remember (last_n (Z.to_nat n) (diffs values)) as ds eqn:Hds. clear Hds.
  destruct (rsi_acc_sums ds 0 0) as [Hg Hl].
  remember (fold_left rsi_acc ds (0, 0)) as gl eqn:Hgl. clear Hgl.
  assert (Hg' : fst gl == gains_of ds) by (rewrite Hg; ring).
  assert (Hl' : snd gl == losses_of ds) by (rewrite Hl; ring).
  rewrite (Qeq_bool_compat _ _ 0 Hl').
  destruct (Qeq_bool (losses_of ds) 0) eqn:Ez.
  - exists 100. split; [reflexivity|reflexivity].
  - apply Qeq_bool_false in Ez.
    pose proof (gains_of_nonneg ds) as G0.
    pose proof (losses_of_nonneg ds) as L0.
    assert (Lpos : 0 < losses_of ds).
    { apply Qle_lteq in L0. destruct L0 as [H|H]; [exact H|].
      exfalso. apply Ez. symmetry. exact H. }
    assert (Hrs : 0 <= gains_of ds / losses_of ds).
    { apply Qle_shift_div_l; [exact Lpos|]. lra. }
    rewrite py_div_ok by (rewrite Hl'; exact Ez). unfold rbind at 1.
    assert (Hrs' : fst gl / snd gl == gains_of ds / losses_of ds)
      by (rewrite Hg', Hl'; reflexivity).
    rewrite py_div_ok by (rewrite Hrs'; lra). unfold rbind.
    eexists. split; [reflexivity|].
    rewrite Hrs'. reflexivity.
Qed.

(** C7.  On a series of at least [n + 1] points [rsi] returns a number, and
    that number is: over the last [n] consecutive differences, with [gains]
    the sum of the non-negative ones and [losses] the sum of the absolute
    values of the negative ones, 100 when [losses] is zero and
    [100 - 100 / (1 + gains / losses)] otherwise. *)
Theorem rsi_refines_spec (values : list Q) (n : Z) :
  (n + 1 <= len values)%Z ->
  exists q, rsi values n = Ok (Some q) /\ q == rsi_spec values n.
Proof. apply rsi_enough. Qed.

Lemma rsi_refines_spec_witness :
  (3 + 1 <= len [10; 9; 8; 9])%Z
  /\ exists q, rsi [10; 9; 8; 9] 3 = Ok (Some q) /\ q == rsi_spec [10; 9; 8; 9] 3.
Proof.
  split; [vm_compute; discriminate|].
  apply (rsi_refines_spec [10; 9; 8; 9] 3). vm_compute. discriminate.
Defined.

(* ------------------------------------------------------------------ *)
(** ** Availability of the indicators *)

Lemma sma_short (values : list Q) (n : Z) : (len values < n)%Z -> sma values n = None.
Proof.
  intro H. unfold sma. apply Z.ltb_lt in H. rewrite H. reflexivity.
Qed.

Lemma ema_short (values : list Q) (n : Z) : (len values < n)%Z -> ema values n = None.
Proof.
  intro H. unfold ema. apply Z.ltb_lt in H. rewrite H. reflexivity.
Qed.

Lemma rsi_short (values : list Q) (n : Z) :
  (len values < n + 1)%Z -> rsi values n = Ok None.
Proof.
  intro H. unfold rsi. apply Z.ltb_lt in H. rewrite H. reflexivity.
Qed.

Lemma atr_short (high low close : list Q) (n : Z) :
  (len close < n + 1)%Z -> atr high low close n = Ok None.
Proof.
  intro H. unfold atr. apply Z.ltb_lt in H. rewrite H. reflexivity.
Qed.

Lemma window_guard_passes (values : list Q) (n : Z) :
  (1 <= n)%Z -> (n <= len values)%Z ->
  ((len values <? n)%Z || (n <=? 0)%Z)%bool = false.
Proof.
  intros H1 H2. apply orb_false_iff. split.
  - apply Z.ltb_ge. exact H2.
  - apply Z.leb_gt. lia.
Qed.

Lemma sma_enough (values : list Q) (n : Z) :
  (1 <= n)%Z -> (n <= len values)%Z -> exists q, sma values n = Some q.
Proof.
  intros H1 H2. unfold sma. rewrite window_guard_passes by assumption.
  eexists. reflexivity.
Qed.

Lemma ema_enough (values : list Q) (n : Z) :
  (1 <= n)%Z -> (n <= len values)%Z -> exists q, ema values n = Some q.
Proof.
  intros H1 H2. unfold ema. rewrite window_guard_passes by assumption.
  eexists. reflexivity.
Qed.

Lemma inject_Z_nonzero (n : Z) : n <> 0%Z -> ~ inject_Z n == 0.
Proof.
  intros Hn H. unfold Qeq in H. simpl in H. lia.
Qed.

Lemma atr_enough (high low close : list Q) (n : Z) :
  (1 <= n)%Z -> (n + 1 <= len close)%Z ->
  (len close <= len high)%Z -> (len close <= len low)%Z ->
  exists q, atr high low close n = Ok (Some q).
Proof.
  intros H1 Hc Hh Hl. unfold atr.
  assert (E : (len close <? n + 1)%Z = false) by (apply Z.ltb_ge; lia).
  rewrite E.
  rewrite (mapM_ok _
    (fun i : Z => py_max3
       (nth (Z.to_nat i) high 0 - nth (Z.to_nat i) low 0)
       (Qabs (nth (Z.to_nat i) high 0 - nth (Z.to_nat (i - 1)%Z) close 0))
       (Qabs (nth (Z.to_nat i) low 0 - nth (Z.to_nat (i - 1)%Z) close 0)))).
  - unfold rbind at 1.
    match goal with
    | |- context [map ?f (py_range 1 (len close))] =>
        remember (map f (py_range 1 (len close))) as trs eqn:Htrs
    end.
    assert (Hlen : len trs = (len close - 1)%Z).
    { rewrite Htrs. unfold len at 1. rewrite length_map, py_range_length. lia. }
    assert (E2 : (len trs <? n)%Z = false) by (apply Z.ltb_ge; lia).
    rewrite E2.
    rewrite py_div_ok by (apply inject_Z_nonzero; lia).
    unfold rbind. eexists. reflexivity.
  - intros i Hi. apply py_range_In in Hi.
    unfold true_range.
    rewrite (py_index_pos high) by lia. unfold rbind at 1.
    rewrite (py_index_pos low) by lia. unfold rbind at 1.
    rewrite (py_index_pos close) by lia. unfold rbind at 1.
    reflexivity.
Qed.

(** C6 (as amended).  Each indicator answers [None] on a series shorter
    than its required length (fewer than [n] points for [sma] and [ema],
    fewer than [n + 1] for [rsi], fewer than [n + 1] closes for [atr]),
    whatever [n].  With enough history it returns a number, for a window
    [n >= 1] ([rsi]: for any [n]), and for [atr] when the high and low
    series are at least as long as the close series. *)
Theorem indicators_unavailable_iff_short
    (values high low close : list Q) (n : Z) :
  ((len values < n)%Z -> sma values n = None /\ ema values n = None)
  /\ ((len values < n + 1)%Z -> rsi values n = Ok None)
  /\ ((len close < n + 1)%Z -> atr high low close n = Ok None)
  /\ ((1 <= n)%Z -> (n <= len values)%Z ->
        (exists q, sma values n = Some q) /\ (exists q, ema values n = Some q))
  /\ ((n + 1 <= len values)%Z -> exists q, rsi values n = Ok (Some q))
  /\ ((1 <= n)%Z -> (n + 1 <= len close)%Z ->
        (len close <= len high)%Z -> (len close <= len low)%Z ->
        exists q, atr high low close n = Ok (Some q)).
Proof.
  split; [|split; [|split; [|split; [|split]]]].
  - intro H. split; [apply sma_short|apply ema_short]; exact H.
  - apply rsi_short.
  - apply atr_short.
  - intros H1 H2. split; [apply sma_enough|apply ema_enough]; assumption.
  - intro H. destruct (rsi_enough values n H) as [q [Hq _]]. exists q. exact Hq.
  - apply atr_enough.
Qed.

Lemma indicators_unavailable_iff_short_witness :
  (sma [1; 2] 3 = None /\ ema [1; 2] 3 = None)
  /\ rsi [1; 2] 2 = Ok None
  /\ atr [2; 3] [0; 1] [1; 2] 2 = Ok None
  /\ ((exists q, sma [1; 2; 4] 2 = Some q) /\ (exists q, ema [1; 2; 4] 2 = Some q))
  /\ (exists q, rsi [1; 2; 4] 2 = Ok (Some q))
  /\ (exists q, atr [2; 3; 5] [0; 1; 3] [1; 2; 4] 2 = Ok (Some q)).
Proof.
  destruct (indicators_unavailable_iff_short [1; 2] [2; 3] [0; 1] [1; 2] 3)
    as [Hs _].
  destruct (indicators_unavailable_iff_short [1; 2] [2; 3] [0; 1] [1; 2] 2)
    as [_ [Hr [Ha _]]].
  destruct (indicators_unavailable_iff_short [1; 2; 4] [2; 3; 5] [0; 1; 3] [1; 2; 4] 2)
    as [_ [_ [_ [Hs2 [Hr2 Ha2]]]]].
  split; [apply Hs; reflexivity|].
  split; [apply Hr; reflexivity|].
  split; [apply Ha; reflexivity|].
  split; [apply Hs2; vm_compute; discriminate|].
  split; [apply Hr2; vm_compute; discriminate|].
  apply Ha2; vm_compute; discriminate.
Defined.

(** C6 as stated fails for a window that is not positive: with [n = 0] any
    series is long enough, yet [sma] and [ema] answer [None], and [atr]
    raises a division by zero. *)
Lemma indicators_zero_window_counterexample :
  (0 <= len [1; 2])%Z
  /\ sma [1; 2] 0 = None
  /\ ema [1; 2] 0 = None
  /\ (0 + 1 <= len [1; 2])%Z
  /\ atr [2; 3] [0; 1] [1; 2] 0 = Raise ZeroDivisionError
  /\ ~ (exists q, sma [1; 2] 0 = Some q).
Proof.
  split; [vm_compute; discriminate|].
  split; [reflexivity|]. split; [reflexivity|].
  split; [vm_compute; discriminate|].
  split; [reflexivity|].
  intros [q Hq]. discriminate Hq.
Qed.

(* ------------------------------------------------------------------ *)
(** ** Trading loop: what each step does *)

Section LoopSteps.

Variable DRY_RUN : bool.
Variable env : Env.

Lemma submit_eq (o : Order) (b : Bot) :
  submit DRY_RUN env o b
  = (if (DRY_RUN || post_ok env o)%bool then Ok tt else Raise GatewayError, b, [o]).
Proof.
  unfold submit, bind, emit, ret, lift.
  destruct DRY_RUN; [reflexivity|].
  destruct (post_ok env o); reflexivity.
Qed.

Lemma accepting_submit (o : Order) :
  accepting DRY_RUN env -> (DRY_RUN || post_ok env o)%bool = true.
Proof.
  intros [H|H].
  - rewrite H. reflexivity.
  - rewrite H. apply orb_true_r.
Qed.

Lemma close_position_eq (b : Bot) :
  close_position DRY_RUN env b
  = if (DRY_RUN || post_ok env (close_order (position b)))%bool
    then (Ok tt, set_position b Position0, [close_order (position b)])
    else (Raise GatewayError, b, [close_order (position b)]).
Proof.
  unfold close_position, bind, get_position, put_position.
  rewrite submit_eq.
  destruct (DRY_RUN || post_ok env (close_order (position b)))%bool; reflexivity.
Qed.

Lemma enforce_stop_eq (price : Q) (b : Bot) :
  enforce_stop DRY_RUN env price b
  = match side (position b) with
    | Flat => (Ok tt, b, [])
    | Long =>
        if Qle_bool price (sl (position b))
        then close_position DRY_RUN env b else (Ok tt, b, [])
    | Short =>
        if Qle_bool (sl (position b)) price
        then close_position DRY_RUN env b else (Ok tt, b, [])
    end.
Proof.
  unfold enforce_stop, bind, get_position. cbv beta iota.
  destruct (side (position b)).
  - reflexivity.
  - destruct (Qle_bool price (sl (position b))); [|reflexivity].
    destruct (close_position DRY_RUN env b) as [[r b'] os]. reflexivity.
  - destruct (Qle_bool (sl (position b)) price); [|reflexivity].
    destruct (close_position DRY_RUN env b) as [[r b'] os]. reflexivity.
Qed.

Lemma open_position_eq (sd : Side) (price a : Q) (b : Bot) :
  open_position DRY_RUN env sd price a b
  = match wallet_sz env with
    | Raise e => (Raise e, b, [])
    | Ok equity =>
        match position_sizing (instrument b) equity price a with
        | Raise e => (Raise e, b, [])
        | Ok q =>
            match bracket_prices (instrument b) sd price a with
            | Raise e => (Raise e, b, [])
            | Ok ts =>
                let o := mkOrder (order_side sd) q false
                                 (opt_float (fst ts)) (opt_float (snd ts)) in
                if (DRY_RUN || post_ok env o)%bool
                then (Ok tt, set_position b (mkPosition sd price q (snd ts) (fst ts)), [o])
                else (Raise GatewayError, b, [o])
            end
        end
    end.
Proof.
  unfold open_position, bind, get_instrument, lift, put_position, place_market_order.
  cbv beta iota.
  destruct (wallet_sz env) as [equity|e]; [|reflexivity].
  destruct (position_sizing (instrument b) equity price a) as [q|e]; [|reflexivity].
  destruct (bracket_prices (instrument b) sd price a) as [ts|e]; [|reflexivity].
  rewrite submit_eq. cbv zeta.
  destruct (DRY_RUN || post_ok env _)%bool; reflexivity.
Qed.

Lemma act_eq (action : Decision) (x : Snapshot) (b : Bot) :
  act DRY_RUN env action x b
  = match action, usable (x_atr x) with
    | open_long, Some a => open_position DRY_RUN env Long (x_close x) a b
    | open_short, Some a => open_position DRY_RUN env Short (x_close x) a b
    | close_long, _ | close_short, _ =>
        match side (position b) with
        | Flat => (Ok tt, b, [])
        | _ => close_position DRY_RUN env b
        end
    | _, _ => (Ok tt, b, [])
    end.
Proof.
  unfold act, bind, get_position. cbv beta iota.
  destruct action; destruct (usable (x_atr x)) as [a|];
    try reflexivity;
    try (destruct (open_position DRY_RUN env _ (x_close x) a b) as [[r b'] os];
         reflexivity);
    destruct (side (position b)); try reflexivity;
    destruct (close_position DRY_RUN env b) as [[r b'] os]; reflexivity.
Qed.

Lemma trade_eq (x : Snapshot) (b : Bot) :
  trade DRY_RUN env x b
  = match act DRY_RUN env (fst (decide x (position b))) x
            (set_position b (snd (decide x (position b)))) with
    | (Ok _, b1, o1) =>
        match enforce_stop DRY_RUN env (x_close x) b1 with
        | (r, b2, o2) => (r, b2, o1 ++ o2)
        end
    | (Raise e, b1, o1) => (Raise e, b1, o1)
    end.
Proof.
  unfold trade, bind, get_position, put_position. cbv beta iota.
  destruct (act DRY_RUN env _ x _) as [[r b1] o1].
  destruct r as [u|e]; [|reflexivity].
  destruct (enforce_stop DRY_RUN env (x_close x) b1) as [[r2 b2] o2].
  reflexivity.
Qed.

End LoopSteps.

(* ------------------------------------------------------------------ *)
(** ** Trading loop: decisions, stop enforcement, invariant *)

Lemma set_position_same (b : Bot) : set_position b (position b) = b.
Proof. destruct b. reflexivity. Qed.

Lemma decide_cases (x : Snapshot) (p : Position) :
  match side p with
  | Flat =>
      snd (decide x p) = p
      /\ (fst (decide x p) = open_long \/ fst (decide x p) = open_short
          \/ fst (decide x p) = hold)
  | Long => fst (decide x p) = close_long \/ fst (decide x p) = manage
  | Short => fst (decide x p) = close_short \/ fst (decide x p) = manage
  end.
Proof.
  unfold decide. destruct (side p).
  - destruct (long_sig x); [|destruct (short_sig x)]; simpl; auto.
  - destruct (short_sig x); simpl; auto.
  - destruct (long_sig x); simpl; auto.
Qed.

(** [decide] opens only from a flat position. *)
Lemma decide_open_flat (x : Snapshot) (p : Position) :
  fst (decide x p) = open_long \/ fst (decide x p) = open_short ->
  side p = Flat /\ snd (decide x p) = p.
Proof.
  intro H. pose proof (decide_cases x p) as C.
  destruct (side p).
  - split; [reflexivity|apply C].
  - destruct H as [H|H]; destruct C as [C|C]; congruence.
  - destruct H as [H|H]; destruct C as [C|C]; congruence.
Qed.

Lemma close_order_decide (x : Snapshot) (p : Position) :
  close_order (snd (decide x p)) = close_order p.
Proof.
  unfold close_order. rewrite decide_side.
  destruct (decide_frame x p) as [_ [Hq _]]. rewrite Hq. reflexivity.
Qed.

Lemma decide_pos_inv (x : Snapshot) (p : Position) :
  pos_inv p -> pos_inv (snd (decide x p)).
Proof.
  intros Hinv Hflat. rewrite decide_side in Hflat.
  pose proof (decide_cases x p) as C. rewrite Hflat in C.
  destruct C as [C _]. rewrite C. apply Hinv. exact Hflat.
Qed.

Lemma keeps_refl (b : Bot) : keeps b b.
Proof. unfold keeps. auto. Qed.

Lemma keeps_trans (b1 b2 b3 : Bot) : keeps b1 b2 -> keeps b2 b3 -> keeps b1 b3.
Proof.
  unfold keeps. intros [A1 [A2 [A3 A4]]] [B1 [B2 [B3 B4]]].
  split; [congruence|]. split; [congruence|]. split; [congruence|].
  intro H. apply B4. apply A4. exact H.
Qed.

Lemma keeps_set_position (b : Bot) (p : Position) :
  (pos_inv (position b) -> pos_inv p) -> keeps b (set_position b p).
Proof. unfold keeps. simpl. auto. Qed.

Lemma pos_inv_Position0 : pos_inv Position0.
Proof. unfold pos_inv. simpl. auto. Qed.

Section LoopProperties.

Variable DRY_RUN : bool.
Variable env : Env.

Lemma close_position_keeps (b : Bot) :
  keeps b (snd (fst (close_position DRY_RUN env b))).
Proof.
  rewrite close_position_eq.
  destruct (DRY_RUN || post_ok env _)%bool; simpl.
  - apply keeps_set_position. intros _. apply pos_inv_Position0.
  - apply keeps_refl.
Qed.

Lemma close_position_log (b : Bot) :
  snd (close_position DRY_RUN env b) = [close_order (position b)].
Proof.
  rewrite close_position_eq.
  destruct (DRY_RUN || post_ok env _)%bool; reflexivity.
Qed.

Lemma open_position_keeps (sd : Side) (price a : Q) (b : Bot) :
  sd <> Flat -> keeps b (snd (fst (open_position DRY_RUN env sd price a b))).
Proof.
  intro Hsd. rewrite open_position_eq.
  destruct (wallet_sz env) as [equity|e]; [|apply keeps_refl].
  destruct (position_sizing _ _ _ _) as [q|e]; [|apply keeps_refl].
  destruct (bracket_prices _ _ _ _) as [ts|e]; [|apply keeps_refl].
  cbv zeta. destruct (DRY_RUN || post_ok env _)%bool; simpl.
  - apply keeps_set_position. intros _ Hflat. simpl in Hflat. contradiction.
  - apply keeps_refl.
Qed.

Lemma open_position_log (sd : Side) (price a : Q) (b : Bot) :
  snd (open_position DRY_RUN env sd price a b) = []
  \/ exists o, snd (open_position DRY_RUN env sd price a b) = [o]
               /\ is_entry o = true.
Proof.
  rewrite open_position_eq.
  destruct (wallet_sz env) as [equity|e]; [|left; reflexivity].
  destruct (position_sizing _ _ _ _) as [q|e]; [|left; reflexivity].
  destruct (bracket_prices _ _ _ _) as [ts|e]; [|left; reflexivity].
  cbv zeta. right.
  destruct (DRY_RUN || post_ok env _)%bool; simpl; eexists; split; reflexivity.
Qed.

Lemma act_keeps (action : Decision) (x : Snapshot) (b : Bot) :
  keeps b (snd (fst (act DRY_RUN env action x b))).
Proof.
  rewrite act_eq.
  destruct action; destruct (usable (x_atr x)) as [a|];
    try apply keeps_refl;
    try (apply open_position_keeps; discriminate);
    destruct (side (position b));
    try apply keeps_refl; apply close_position_keeps.
Qed.

Lemma enforce_stop_keeps (price : Q) (b : Bot) :
  keeps b (snd (fst (enforce_stop DRY_RUN env price b))).
Proof.
  rewrite enforce_stop_eq.
  destruct (side (position b)); [apply keeps_refl| |].
  - destruct (Qle_bool _ _); [apply close_position_keeps|apply keeps_refl].
  - destruct (Qle_bool _ _); [apply close_position_keeps|apply keeps_refl].
Qed.

Lemma trade_keeps (x : Snapshot) (b : Bot) :
  keeps b (snd (fst (trade DRY_RUN env x b))).
Proof.
  rewrite trade_eq.
  assert (K0 : keeps b (set_position b (snd (decide x (position b))))).
  { apply keeps_set_position. apply decide_pos_inv. }
  pose proof (act_keeps (fst (decide x (position b))) x
                (set_position b (snd (decide x (position b))))) as K1.
  destruct (act DRY_RUN env _ x _) as [[r b1] o1]. simpl in K1.
  destruct r as [u|e].
  - pose proof (enforce_stop_keeps (x_close x) b1) as K2.
    destruct (enforce_stop DRY_RUN env (x_close x) b1) as [[r2 b2] o2].
    simpl in K2. simpl.
    apply keeps_trans with b1; [|exact K2].
    apply keeps_trans with (set_position b (snd (decide x (position b)))); assumption.
  - simpl. apply keeps_trans with (set_position b (snd (decide x (position b))));
      assumption.
Qed.

Lemma cycle_keeps (b : Bot) : keeps b (snd (fst (cycle DRY_RUN env b))).
Proof.
  unfold cycle.
  destruct (wallet_cb env) as [equity|e]; [|apply keeps_refl].
  destruct (circuit_breakers b equity); try apply keeps_refl.
  unfold bind at 1, lift at 1.
  destruct (klines env) as [k|e]; [|apply keeps_refl].
  unfold bind at 1, lift at 1.
  destruct (compute_indicators k) as [x|e]; [|apply keeps_refl].
  pose proof (trade_keeps x b) as K.
  destruct (trade DRY_RUN env x b) as [[r b'] os]. simpl in K.
  destruct r; simpl; exact K.
Qed.

End LoopProperties.

Section LoopOrders.

Variable DRY_RUN : bool.
Variable env : Env.

Lemma close_order_not_entry (p : Position) : is_entry (close_order p) = false.
Proof. reflexivity. Qed.

Lemma enforce_stop_log (price : Q) (b : Bot) :
  snd (enforce_stop DRY_RUN env price b) = []
  \/ snd (enforce_stop DRY_RUN env price b) = [close_order (position b)].
Proof.
  rewrite enforce_stop_eq.
  destruct (side (position b)); [left; reflexivity| |];
    (destruct (Qle_bool _ _); [right; apply close_position_log|left; reflexivity]).
Qed.

(** The orders of [act]: nothing, one close, or one entry; an entry only on
    an open decision with a usable ATR. *)
Lemma act_log (action : Decision) (x : Snapshot) (b : Bot) :
  snd (act DRY_RUN env action x b) = []
  \/ snd (act DRY_RUN env action x b) = [close_order (position b)]
  \/ exists o, snd (act DRY_RUN env action x b) = [o]
       /\ is_entry o = true
       /\ (action = open_long \/ action = open_short)
       /\ exists a, usable (x_atr x) = Some a.
Proof.
  rewrite act_eq.
  destruct action; destruct (usable (x_atr x)) as [a|] eqn:Ha;
    try (left; reflexivity);
    try (destruct (open_position_log DRY_RUN env Long (x_close x) a b)
           as [H|[o [H1 H2]]];
         [left; exact H|right; right; exists o; eauto 8]);
    try (destruct (open_position_log DRY_RUN env Short (x_close x) a b)
           as [H|[o [H1 H2]]];
         [left; exact H|right; right; exists o; eauto 8]);
    destruct (side (position b));
    try (left; reflexivity);
    right; left; apply close_position_log.
Qed.

Lemma trade_log (x : Snapshot) (b : Bot) :
  (length (filter is_entry (snd (trade DRY_RUN env x b))) <= 1)%nat
  /\ forall o, In o (snd (trade DRY_RUN env x b)) -> is_entry o = true ->
       (fst (decide x (position b)) = open_long
        \/ fst (decide x (position b)) = open_short)
       /\ exists a, usable (x_atr x) = Some a.
Proof.
  rewrite trade_eq.
  pose proof (act_log (fst (decide x (position b))) x
                (set_position b (snd (decide x (position b))))) as HA.
  destruct (act DRY_RUN env _ x _) as [[r b1] o1]. simpl in HA.
  assert (H1 : (length (filter is_entry o1) <= 1)%nat
               /\ forall o, In o o1 -> is_entry o = true ->
                    (fst (decide x (position b)) = open_long
                     \/ fst (decide x (position b)) = open_short)
                    /\ exists a, usable (x_atr x) = Some a).
  { destruct HA as [E|[E|[o [E [He [Hd Ha]]]]]]; rewrite E.
    - split; [simpl; lia|]. intros o [].
    - split; [simpl; lia|]. intros o [<-|[]] Ho. discriminate Ho.
    - split; [simpl; destruct (is_entry o); simpl; lia|].
      intros o' [<-|[]] _. auto. }
  destruct r as [u|e]; [|exact H1].
  pose proof (enforce_stop_log (x_close x) b1) as HE.
  destruct (enforce_stop DRY_RUN env (x_close x) b1) as [[r2 b2] o2].
  simpl in HE. simpl.
  assert (H2 : filter is_entry o2 = [] /\ forall o, In o o2 -> is_entry o = false).
  { destruct HE as [E|E]; rewrite E; simpl; split; auto.
    - intros o [].
    - intros o [<-|[]]. reflexivity. }
  destruct H1 as [L1 I1]. destruct H2 as [L2 I2].
  split.
  - rewrite filter_app, L2, app_nil_r. exact L1.
  - intros o Hin Ho. apply in_app_or in Hin. destruct Hin as [Hin|Hin].
    + apply (I1 o Hin Ho).
    + rewrite (I2 o Hin) in Ho. discriminate Ho.
Qed.

(** A cycle past the breakers, with candles and indicators, is [trade]. *)
Lemma cycle_trading (b : Bot) (equity : Q) (k : Klines) (x : Snapshot) :
  wallet_cb env = Ok equity -> circuit_breakers b equity = NoBreak ->
  klines env = Ok k -> compute_indicators k = Ok x ->
  cycle DRY_RUN env b
  = match trade DRY_RUN env x b with
    | (Ok _, b', os) => (Completed, b', os)
    | (Raise e, b', os) => (Aborted e, b', os)
    end.
Proof.
  intros Hw Hc Hk Hx. unfold cycle. rewrite Hw, Hc, Hk.
  unfold bind at 1, lift at 1. unfold bind at 1, lift at 1. rewrite Hx.
  destruct (trade DRY_RUN env x b) as [[r b'] os].
  destruct r; reflexivity.
Qed.

(** The orders of a cycle are none, or those of [trade] on the snapshot of
    the candles it fetched. *)
Lemma cycle_log (b : Bot) :
  snd (cycle DRY_RUN env b) = []
  \/ exists k x, klines env = Ok k /\ compute_indicators k = Ok x
       /\ snd (cycle DRY_RUN env b) = snd (trade DRY_RUN env x b).
Proof.
  unfold cycle.
  destruct (wallet_cb env) as [equity|e]; [|left; reflexivity].
  destruct (circuit_breakers b equity); try (left; reflexivity).
  unfold bind, lift.
  destruct (klines env) as [k|e]; [|left; reflexivity].
  destruct (compute_indicators k) as [x|e] eqn:Hx; [|left; reflexivity].
  right. exists k, x. split; [reflexivity|]. split; [exact Hx|].
  destruct (trade DRY_RUN env x b) as [[r b'] os].
  destruct r; reflexivity.
Qed.

Lemma cycle_entries_from_flat (b : Bot) :
  entries_from_flat (position b) (snd (cycle DRY_RUN env b)).
Proof.
  unfold entries_from_flat.
  destruct (cycle_log b) as [E|[k [x [_ [_ E]]]]]; rewrite E.
  - split; [simpl; lia|]. intros o [].
  - destruct (trade_log x b) as [L I]. split; [exact L|].
    intros o Hin Ho. destruct (I o Hin Ho) as [Hd _].
    apply (decide_open_flat x (position b) Hd).
Qed.

(** With the baselines equal, no cycle halts. *)
Lemma cycle_never_halts (b : Bot) :
  day_start_equity b = start_equity b ->
  fst (fst (cycle DRY_RUN env b)) <> Halted.
Proof.
  intro Hsame. unfold cycle.
  destruct (wallet_cb env) as [equity|e]; [|discriminate].
  pose proof (circuit_breakers_same_baseline b equity Hsame) as Hnh.
  destruct (circuit_breakers b equity); [|discriminate|contradiction].
  destruct ((k <~ lift (klines env) ;; x <~ lift (compute_indicators k) ;;
             trade DRY_RUN env x) b) as [[r b'] os].
  destruct r; discriminate.
Qed.

(** Once the stop is crossed, the cycle's trading step sends one
    reduce-only close for the position's quantity, whatever [decide]
    answered; it leaves the bot flat unless the gateway refuses the order. *)
Lemma trade_stop_breach (x : Snapshot) (b : Bot) :
  crossed (position b) (x_close x) ->
  trade DRY_RUN env x b
  = if (DRY_RUN || post_ok env (close_order (position b)))%bool
    then (Ok tt, set_position b Position0, [close_order (position b)])
    else (Raise GatewayError,
          set_position b (snd (decide x (position b))),
          [close_order (position b)]).
Proof.
  intros Hx. rewrite trade_eq.
  set (p := position b) in *.
  set (d := decide x p).
  set (b1 := set_position b (snd d)).
  set (g := (DRY_RUN || post_ok env (close_order p))%bool).
  assert (Hside : side (position b1) = side p) by apply decide_side.
  assert (Hclose : close_position DRY_RUN env b1
                   = if g then (Ok tt, set_position b Position0, [close_order p])
                     else (Raise GatewayError, b1, [close_order p])).
  { rewrite close_position_eq.
    unfold b1 at 1 3. simpl position. unfold d. rewrite close_order_decide.
    reflexivity. }
  assert (Hflat : enforce_stop DRY_RUN env (x_close x) (set_position b Position0)
                  = (Ok tt, set_position b Position0, [])).
  { rewrite enforce_stop_eq. reflexivity. }
  pose proof (decide_cases x p) as C. fold d in C.
  unfold crossed in Hx.
  rewrite act_eq. rewrite Hside.
  destruct (side p) eqn:Hs; [contradiction| |].
  - assert (Hstop : Qle_bool (x_close x) (sl (position b1)) = true).
    { apply Qle_bool_iff. apply Qle_trans with (sl p); [exact Hx|].
      apply decide_sl_long. exact Hs. }
    assert (E : enforce_stop DRY_RUN env (x_close x) b1
                = close_position DRY_RUN env b1)
      by (rewrite enforce_stop_eq, Hside, Hstop; reflexivity).
    destruct C as [C|C]; rewrite C.
    + destruct (usable (x_atr x)); rewrite Hclose;
        (destruct g; [rewrite Hflat|]; reflexivity).
    + destruct (usable (x_atr x)); rewrite E, Hclose; destruct g; reflexivity.
  - assert (Hstop : Qle_bool (sl (position b1)) (x_close x) = true).
    { apply Qle_bool_iff. apply Qle_trans with (sl p); [|exact Hx].
      apply decide_sl_short. exact Hs. }
    assert (E : enforce_stop DRY_RUN env (x_close x) b1
                = close_position DRY_RUN env b1)
      by (rewrite enforce_stop_eq, Hside, Hstop; reflexivity).
    destruct C as [C|C]; rewrite C.
    + destruct (usable (x_atr x)); rewrite Hclose;
        (destruct g; [rewrite Hflat|]; reflexivity).
    + destruct (usable (x_atr x)); rewrite E, Hclose; destruct g; reflexivity.
Qed.

End LoopOrders.

Lemma loop_pos_inv (DRY_RUN : bool) (envs : list Env) (b : Bot) :
  pos_inv (position b) -> pos_inv (position (fst (loop DRY_RUN envs b))).
Proof.
  revert b. induction envs as [|e envs IH]; intros b Hinv; simpl; [exact Hinv|].
  pose proof (cycle_keeps DRY_RUN e b) as K.
  destruct (cycle DRY_RUN e b) as [[c b'] os]. simpl in K.
  destruct K as [_ [_ [_ K]]]. specialize (K Hinv).
  specialize (IH b' K).
  destruct c; try (destruct (loop DRY_RUN envs b') as [b'' os']; exact IH).
  exact K.
Qed.

(* ------------------------------------------------------------------ *)
(** ** Trading loop: the statements *)

(** C4.  In a cycle that gets past the circuit breakers, fetches candles
    and computes its snapshot: if a position is open and the latest close has
    crossed its stop (long and [price <= stop], or short and
    [price >= stop]), the cycle sends exactly one order, whatever [decide]
    answered: a reduce-only market close for the position's quantity, a Sell
    for a long and a Buy for a short, without bracket.  When the order is
    taken (always so under [DRY_RUN]) the cycle completes with the position
    [Position()]; when the gateway refuses it the cycle is aborted and the
    position is still open, on the same side. *)
Theorem stop_breach_closes_position
    (DRY_RUN : bool) (env : Env) (b : Bot) (equity : Q) (k : Klines) (x : Snapshot) :
  wallet_cb env = Ok equity -> circuit_breakers b equity = NoBreak ->
  klines env = Ok k -> compute_indicators k = Ok x ->
  (side (position b) = Long /\ x_close x <= sl (position b))
  \/ (side (position b) = Short /\ sl (position b) <= x_close x) ->
  let o := mkOrder (match side (position b) with Long => Sell | _ => Buy end)
                   (qty (position b)) true None None in
  snd (cycle DRY_RUN env b) = [o]
  /\ (DRY_RUN = true \/ post_ok env o = true ->
      cycle DRY_RUN env b = (Completed, set_position b (mkPosition Flat 0 0 0 0), [o]))
  /\ (DRY_RUN = false -> post_ok env o = false ->
      fst (fst (cycle DRY_RUN env b)) = Aborted GatewayError
      /\ side (position (snd (fst (cycle DRY_RUN env b)))) = side (position b)).
Proof.
  intros Hw Hc Hk Hx Hcross o.
  assert (Hcr : crossed (position b) (x_close x)).
  { unfold crossed. destruct Hcross as [[Hs Hp]|[Hs Hp]]; rewrite Hs; exact Hp. }
  assert (Ho : close_order (position b) = o).
  { unfold close_order, closing_side, o.
    destruct Hcross as [[Hs _]|[Hs _]]; rewrite Hs; reflexivity. }
  rewrite (cycle_trading DRY_RUN env b equity k x Hw Hc Hk Hx).
  rewrite (trade_stop_breach DRY_RUN env x b Hcr). rewrite Ho.
  split; [|split].
  - destruct (DRY_RUN || post_ok env o)%bool; reflexivity.
  - intro Hacc.
    assert (E : (DRY_RUN || post_ok env o)%bool = true).
    { destruct Hacc as [H|H]; rewrite H; [reflexivity|apply orb_true_r]. }
    rewrite E. reflexivity.
  - intros Hd Hp. rewrite Hd, Hp. simpl. split; [reflexivity|apply decide_side].
Qed.

Lemma stop_breach_closes_position_witness :
  let long := mkBot sample_instrument 10000 10000 (mkPosition Long 100 1 97 104) in
  let short := mkBot sample_instrument 10000 10000 (mkPosition Short 90 2 95 80) in
  let refusing := mkEnv (Ok 10000) (Ok short_klines) (Ok 10000) (fun _ => false) in
  cycle false (calm_env short_klines) long
    = (Completed, set_position long (mkPosition Flat 0 0 0 0),
       [mkOrder Sell 1 true None None])
  /\ cycle false (calm_env short_klines) short
    = (Completed, set_position short (mkPosition Flat 0 0 0 0),
       [mkOrder Buy 2 true None None])
  /\ snd (cycle false refusing long) = [mkOrder Sell 1 true None None]
  /\ fst (fst (cycle false refusing long)) = Aborted GatewayError
  /\ side (position (snd (fst (cycle false refusing long)))) = Long.
Proof.
  intros long short refusing.
  set (x := mkSnapshot None None None None None (965 # 10)).
  assert (HL : (side (position long) = Long /\ x_close x <= sl (position long))
               \/ (side (position long) = Short /\ sl (position long) <= x_close x)).
  { left. split; [reflexivity|vm_compute; discriminate]. }
  assert (HS : (side (position short) = Long /\ x_close x <= sl (position short))
               \/ (side (position short) = Short /\ sl (position short) <= x_close x)).
  { right. split; [reflexivity|vm_compute; discriminate]. }
  destruct (stop_breach_closes_position false (calm_env short_klines) long 10000
              short_klines x eq_refl eq_refl eq_refl eq_refl HL) as [_ [A _]].
  destruct (stop_breach_closes_position false (calm_env short_klines) short 10000
              short_klines x eq_refl eq_refl eq_refl eq_refl HS) as [_ [B _]].
  destruct (stop_breach_closes_position false refusing long 10000
              short_klines x eq_refl eq_refl eq_refl eq_refl HL) as [C [_ D]].
  split; [apply A; right; reflexivity|].
  split; [apply B; right; reflexivity|].
  split; [exact C|]. apply D; reflexivity.
Defined.

(** C4, where the claim as worded fails.  An open long with its stop at 97
    and the latest close at 96.5: the stop is crossed.  With equity 9750
    against a daily baseline of 10000 the cycle is paused before the candles
    are fetched: nothing is sent and the long stays open, under [DRY_RUN]
    or not.  And past the breakers, when the candles cannot be fetched, the
    cycle is aborted with nothing sent and the long still open. *)
Lemma stop_breach_paused_counterexample :
  let b := mkBot sample_instrument 10000 10000 (mkPosition Long 100 1 97 104) in
  let pausing := mkEnv (Ok 9750) (Ok short_klines) (Ok 9750) (fun _ => true) in
  let failing := mkEnv (Ok 10000) (Raise GatewayError) (Ok 10000) (fun _ => true) in
  side (position b) = Long
  /\ compute_indicators short_klines
     = Ok (mkSnapshot None None None None None (965 # 10))
  /\ (965 # 10) <= sl (position b)
  /\ cycle false pausing b = (Paused, b, [])
  /\ cycle true pausing b = (Paused, b, [])
  /\ cycle false failing b = (Aborted GatewayError, b, []).
Proof.
  intros b pausing failing.
  split; [reflexivity|]. split; [vm_compute; reflexivity|].
  split; [vm_compute; discriminate|].
  split; [vm_compute; reflexivity|].
  split; vm_compute; reflexivity.
Qed.

(** C9.  The position invariant ([side = flat] gives [qty = sl = tp = 0])
    holds after any number of cycles from [Bot.__init__], is kept by every
    cycle and by [decide]; there is one position record, and a cycle sends
    at most one entry order, and only from a flat position. *)
Theorem position_invariant
    (DRY_RUN : bool) (envs : list Env) (inst : Instrument) (equity : Q)
    (env : Env) (b : Bot) (x : Snapshot) (p : Position) :
  pos_inv (position (fst (loop DRY_RUN envs (Bot_init inst equity))))
  /\ (pos_inv (position b) -> pos_inv (position (snd (fst (cycle DRY_RUN env b)))))
  /\ (pos_inv p -> pos_inv (snd (decide x p)))
  /\ entries_from_flat (position b) (snd (cycle DRY_RUN env b)).
Proof.
  split; [|split; [|split]].
  - apply loop_pos_inv. apply pos_inv_Position0.
  - apply (cycle_keeps DRY_RUN env b).
  - apply decide_pos_inv.
  - apply cycle_entries_from_flat.
Qed.

Lemma position_invariant_witness :
  let b := Bot_init sample_instrument 10000 in
  pos_inv (position b)
  /\ pos_inv (position (snd (fst (cycle false (calm_env rising_klines) b))))
  /\ side (position (snd (fst (cycle false (calm_env rising_klines) b)))) = Long
  /\ entries_from_flat (position b) (snd (cycle false (calm_env rising_klines) b)).
Proof.
  intro b.
  destruct (position_invariant false [] sample_instrument 10000
              (calm_env rising_klines) b
              (mkSnapshot None None None None None 0) Position0)
    as [H0 [H1 [_ H3]]].
  split; [exact H0|].
  split; [apply H1; exact H0|].
  split; [vm_compute; reflexivity|exact H3].
Defined.

(** C10.  When [decide] answers open_long or open_short and the ATR is
    [None], the trading step sends no order and leaves the bot, and so the
    flat position, as it was; and any entry order that a trading step sends
    was sent with an ATR that is present (and not zero). *)
Theorem no_entry_without_atr (DRY_RUN : bool) (env : Env) (x : Snapshot) (b : Bot) :
  (fst (decide x (position b)) = open_long
   \/ fst (decide x (position b)) = open_short ->
   x_atr x = None ->
   trade DRY_RUN env x b = (Ok tt, b, []) /\ side (position b) = Flat)
  /\ (forall o, In o (snd (trade DRY_RUN env x b)) -> is_entry o = true ->
        exists a, x_atr x = Some a /\ ~ a == 0).
Proof.
  split.
  - intros Hd Ha.
    destruct (decide_open_flat x (position b) Hd) as [Hflat Hsame].
    split; [|exact Hflat].
    rewrite trade_eq, Hsame, set_position_same, act_eq, Ha. simpl usable.
    assert (E : enforce_stop DRY_RUN env (x_close x) b = (Ok tt, b, [])).
    { rewrite enforce_stop_eq, Hflat. reflexivity. }
    destruct Hd as [Hd|Hd]; rewrite Hd; cbv iota; rewrite E; reflexivity.
  - intros o Hin Ho.
    destruct (trade_log DRY_RUN env x b) as [_ I].
    destruct (I o Hin Ho) as [_ [a Ha]].
    exists a. apply usable_Some. exact Ha.
Qed.

Lemma no_entry_without_atr_witness :
  let b := Bot_init sample_instrument 10000 in
  let x := mkSnapshot (Some 90) (Some 110) (Some 100) (Some 60) None 120 in
  fst (decide x (position b)) = open_long
  /\ x_atr x = None
  /\ trade false (calm_env short_klines) x b = (Ok tt, b, []).
Proof.
  intros b x.
  assert (Hd : fst (decide x (position b)) = open_long) by reflexivity.
  split; [exact Hd|]. split; [reflexivity|].
  apply (no_entry_without_atr false (calm_env short_klines) x b).
  - left. exact Hd.
  - reflexivity.
Defined.

(* ------------------------------------------------------------------ *)
(** ** Corollaries on whole cycles *)

Lemma close_position_position (DRY_RUN : bool) (env : Env) (b : Bot) :
  position (snd (fst (close_position DRY_RUN env b))) = position b
  \/ position (snd (fst (close_position DRY_RUN env b))) = Position0.
Proof.
  rewrite close_position_eq.
  destruct (DRY_RUN || post_ok env _)%bool; simpl; auto.
Qed.

Lemma act_position (DRY_RUN : bool) (env : Env)
    (action : Decision) (x : Snapshot) (b : Bot) :
  position (snd (fst (act DRY_RUN env action x b))) = position b
  \/ position (snd (fst (act DRY_RUN env action x b))) = Position0
  \/ action = open_long \/ action = open_short.
Proof.
  rewrite act_eq.
  destruct action; destruct (usable (x_atr x)) as [a|]; simpl; auto;
    destruct (side (position b)); simpl; auto;
    destruct (close_position_position DRY_RUN env b) as [H|H]; auto.
Qed.

Lemma enforce_stop_position (DRY_RUN : bool) (env : Env) (price : Q) (b : Bot) :
  position (snd (fst (enforce_stop DRY_RUN env price b))) = position b
  \/ position (snd (fst (enforce_stop DRY_RUN env price b))) = Position0.
Proof.
  rewrite enforce_stop_eq.
  destruct (side (position b)); simpl; auto;
    destruct (Qle_bool _ _); simpl; auto;
    apply close_position_position.
Qed.

(** After the trading step the position is the one [decide] left, or
    [Position()], or one opened from flat. *)
Lemma trade_position (DRY_RUN : bool) (env : Env) (x : Snapshot) (b : Bot) :
  position (snd (fst (trade DRY_RUN env x b))) = snd (decide x (position b))
  \/ position (snd (fst (trade DRY_RUN env x b))) = Position0
  \/ side (position b) = Flat.
Proof.
  rewrite trade_eq.
  pose proof (act_position DRY_RUN env (fst (decide x (position b))) x
                (set_position b (snd (decide x (position b))))) as HA.
  destruct (act DRY_RUN env _ x _) as [[r b1] o1]. simpl in HA.
  assert (H1 : position b1 = snd (decide x (position b))
               \/ position b1 = Position0 \/ side (position b) = Flat).
  { destruct HA as [H|[H|H]]; auto.
    right. right. apply (decide_open_flat x (position b) H). }
  destruct r as [u|e]; [|exact H1].
  pose proof (enforce_stop_position DRY_RUN env (x_close x) b1) as HE.
  destruct (enforce_stop DRY_RUN env (x_close x) b1) as [[r2 b2] o2].
  simpl in HE. simpl.
  destruct HE as [HE|HE]; rewrite HE; auto.
Qed.

Lemma cycle_position (DRY_RUN : bool) (env : Env) (b : Bot) :
  position (snd (fst (cycle DRY_RUN env b))) = position b
  \/ (exists x, position (snd (fst (cycle DRY_RUN env b)))
                = snd (decide x (position b)))
  \/ position (snd (fst (cycle DRY_RUN env b))) = Position0
  \/ side (position b) = Flat.
Proof.
  unfold cycle.
  destruct (wallet_cb env) as [equity|e]; [|left; reflexivity].
  destruct (circuit_breakers b equity); try (left; reflexivity).
  unfold bind, lift.
  destruct (klines env) as [k|e]; [|left; reflexivity].
  destruct (compute_indicators k) as [x|e]; [|left; reflexivity].
  pose proof (trade_position DRY_RUN env x b) as H.
  destruct (trade DRY_RUN env x b) as [[r b'] os]. simpl in H.
  assert (G : position b' = position b
              \/ (exists x0, position b' = snd (decide x0 (position b)))
              \/ position b' = Position0 \/ side (position b) = Flat).
  { destruct H as [H|[H|H]]; eauto. }
  destruct r; exact G.
Qed.

(** X24.  A position that is long before and after a cycle is the same position,
    with a stop that has not been lowered; a short one, not raised. *)
Lemma cycle_stop_monotone (DRY_RUN : bool) (env : Env) (b : Bot) :
  let b' := snd (fst (cycle DRY_RUN env b)) in
  (side (position b) = Long -> side (position b') = Long ->
     sl (position b) <= sl (position b')
     /\ entry (position b') = entry (position b)
     /\ qty (position b') = qty (position b))
  /\ (side (position b) = Short -> side (position b') = Short ->
     sl (position b') <= sl (position b)
     /\ entry (position b') = entry (position b)
     /\ qty (position b') = qty (position b)).
Proof.
  intro b'. subst b'.
  destruct (cycle_position DRY_RUN env b) as [H|[[x H]|[H|H]]]; rewrite H.
  - split; intros _ _; (split; [lra|auto]).
  - destruct (decide_frame x (position b)) as [He [Hq _]].
    split; intros Hs _.
    + split; [apply decide_sl_long; exact Hs|auto].
    + split; [apply decide_sl_short; exact Hs|auto].
  - split; intros _ Hs; discriminate Hs.
  - split; intros Hs _; discriminate Hs.
Qed.

Lemma loop_baselines (DRY_RUN : bool) (envs : list Env) (b : Bot) :
  start_equity (fst (loop DRY_RUN envs b)) = start_equity b
  /\ day_start_equity (fst (loop DRY_RUN envs b)) = day_start_equity b.
Proof.
  revert b. induction envs as [|e envs IH]; intro b; simpl; [auto|].
  pose proof (cycle_keeps DRY_RUN e b) as K.
  destruct (cycle DRY_RUN e b) as [[c b'] os]. simpl in K.
  destruct K as [_ [K1 [K2 _]]].
  specialize (IH b').
  destruct c; try (destruct (loop DRY_RUN envs b') as [b'' os'];
                   simpl in *; destruct IH; split; congruence).
Qed.

(** X20.  From [Bot.__init__] on, no cycle ends in a halt. *)
Lemma init_loop_never_halts
    (DRY_RUN : bool) (envs : list Env) (inst : Instrument) (equity : Q) (env : Env) :
  fst (fst (cycle DRY_RUN env (fst (loop DRY_RUN envs (Bot_init inst equity)))))
  <> Halted.
Proof.
  apply cycle_never_halts.
  destruct (loop_baselines DRY_RUN envs (Bot_init inst equity)) as [H1 H2].
  rewrite H1, H2. reflexivity.
Qed.

Lemma mapM_length {A B : Type} (f : A -> res B) (l : list A) (l' : list B) :
  mapM f l = Ok l' -> length l' = length l.
Proof.
  revert l'. induction l as [|a l IH]; intros l' H; simpl in H.
  - inversion H. reflexivity.
  - destruct (f a) as [b|e]; simpl in H; [|discriminate].
    destruct (mapM f l) as [bs|e]; simpl in H; [|discriminate].
    inversion H. simpl. rewrite (IH bs eq_refl). reflexivity.
Qed.

Lemma atr_ok_some (high low close : list Q) (n : Z) (a : option Q) :
  (1 <= n)%Z -> (n + 1 <= len close)%Z ->
  atr high low close n = Ok a -> a <> None.
Proof.
  intros H1 Hc. unfold atr.
  assert (E : (len close <? n + 1)%Z = false) by (apply Z.ltb_ge; lia).
  rewrite E.
  destruct (mapM _ _) as [trs|e] eqn:Hm; simpl; [|discriminate].
  apply mapM_length in Hm. rewrite py_range_length in Hm.
  assert (E2 : (len trs <? n)%Z = false).
  { apply Z.ltb_ge. unfold len in *. lia. }
  rewrite E2. rewrite py_div_ok by (apply inject_Z_nonzero; lia).
  simpl. intro H. inversion H. discriminate.
Qed.

(** X10.  On a snapshot computed from candles, an entry signal comes with an ATR:
    the trend average needs 200 closes, the ATR 15. *)
Lemma entry_signal_has_atr (k : Klines) (x : Snapshot) :
  compute_indicators k = Ok x ->
  long_sig x = true \/ short_sig x = true ->
  x_atr x <> None.
Proof.
  intros Hx Hsig.
  unfold compute_indicators in Hx.
  destruct (rsi (k_close k) RSI_LEN) as [r|e]; simpl in Hx; [|discriminate].
  destruct (atr (k_high k) (k_low k) (k_close k) ATR_LEN) as [a|e] eqn:Ha;
    simpl in Hx; [|discriminate].
  destruct (py_index (k_close k) (-1)) as [cl|e]; simpl in Hx; [|discriminate].
  inversion Hx; subst x; clear Hx. simpl.
  assert (Ht : truthy (ema (k_close k) EMA_TREND) = true).
  { unfold long_sig, short_sig, and_price_gt, and_price_lt in Hsig. simpl in Hsig.
    destruct (truthy (ema (k_close k) EMA_TREND)); [reflexivity|].
    simpl in Hsig. rewrite !andb_false_r in Hsig. simpl in Hsig.
    destruct Hsig; discriminate. }
  assert (Hlen : (EMA_TREND <= len (k_close k))%Z).
  { unfold ema in Ht.
    destruct ((len (k_close k) <? EMA_TREND)%Z || (EMA_TREND <=? 0)%Z)%bool eqn:G;
      [discriminate|].
    apply orb_false_iff in G. destruct G as [G _]. apply Z.ltb_ge in G. exact G. }
  apply (atr_ok_some (k_high k) (k_low k) (k_close k) ATR_LEN a);
    unfold ATR_LEN, EMA_TREND in *; try lia. exact Ha.
Qed.

(** X23.  A trading step that ends normally, on a gateway that takes its orders,
    never leaves a position whose stop the price has crossed: this covers a
    position opened in the same step as well. *)
Lemma trade_leaves_no_breach
    (DRY_RUN : bool) (env : Env) (x : Snapshot) (b b' : Bot) (os : list Order) :
  accepting DRY_RUN env ->
  trade DRY_RUN env x b = (Ok tt, b', os) ->
  ~ crossed (position b') (x_close x).
Proof.
  intros Hacc. rewrite trade_eq.
  destruct (act DRY_RUN env _ x _) as [[r b1] o1].
  destruct r as [u|e]; [|discriminate].
  rewrite enforce_stop_eq. unfold crossed.
  destruct (side (position b1)) eqn:Hs.
  - intro H. inversion H; subst. rewrite Hs. auto.
  - destruct (Qle_bool (x_close x) (sl (position b1))) eqn:Hq.
    + rewrite close_position_eq, (accepting_submit DRY_RUN env _ Hacc).
      intro H. inversion H; subst. simpl. auto.
    + intro H. inversion H; subst. rewrite Hs.
      apply Qle_bool_false in Hq. lra.
  - destruct (Qle_bool (sl (position b1)) (x_close x)) eqn:Hq.
    + rewrite close_position_eq, (accepting_submit DRY_RUN env _ Hacc).
      intro H. inversion H; subst. simpl. auto.
    + intro H. inversion H; subst. rewrite Hs.
      apply Qle_bool_false in Hq. lra.
Qed.

(* ================================================================== *)
(** * Further properties of the code *)

(* ------------------------------------------------------------------ *)
(** ** Averages *)

Lemma inject_Z_len_cons {A : Type} (a : A) (l : list A) :
  inject_Z (len (a :: l)) == inject_Z (len l) + 1.
Proof.
  unfold len. simpl length. rewrite Nat2Z.inj_succ. unfold Z.succ.
  rewrite inject_Z_plus. reflexivity.
Qed.

Lemma fold_sum_bounds (l : list Q) (a lo hi : Q) :
  (forall v, In v l -> lo <= v <= hi) ->
  a + inject_Z (len l) * lo <= fold_left Qplus l a
  /\ fold_left Qplus l a <= a + inject_Z (len l) * hi.
Proof.
  revert a. induction l as [|v l IH]; intros a H.
  - unfold len. simpl length. change (inject_Z (Z.of_nat 0)) with 0.
    simpl fold_left. split; lra.
  - simpl fold_left.
    destruct (IH (a + v)) as [H1 H2].
    { intros w Hw. apply H. right. exact Hw. }
    assert (Hv : lo <= v <= hi) by (apply H; left; reflexivity).
    pose proof (inject_Z_len_cons v l) as E.
    remember (inject_Z (len (v :: l))) as m' eqn:Hm'. clear Hm'.
    remember (inject_Z (len l)) as m eqn:Hm. clear Hm.
    assert (E1 : m' * lo == m * lo + lo) by (rewrite E; ring).
    assert (E2 : m' * hi == m * hi + hi) by (rewrite E; ring).
    split; lra.
Qed.

(** The mean of a non-empty list lies between any bounds of its elements. *)
Lemma mean_bounds (l : list Q) (n : Z) (lo hi : Q) :
  (1 <= n)%Z -> len l = n ->
  (forall v, In v l -> lo <= v <= hi) ->
  lo <= py_sum l / inject_Z n <= hi.
Proof.
  intros Hn Hl H. unfold py_sum.
  destruct (fold_sum_bounds l 0 lo hi H) as [H1 H2]. rewrite Hl in H1, H2.
  assert (Hpos : 0 < inject_Z n).
  { change 0 with (inject_Z 0). rewrite <- Zlt_Qlt. lia. }
  remember (fold_left Qplus l 0) as s eqn:Hs. clear Hs.
  remember (inject_Z n) as m eqn:Hm. clear Hm.
  split.
  - apply Qle_shift_div_l; [exact Hpos|]. lra.
  - apply Qle_shift_div_r; [exact Hpos|]. lra.
Qed.

Lemma py_bound_neg (m n : Z) :
  (1 <= n)%Z -> (0 <= m)%Z -> py_bound m (- n) = (Z.to_nat m - Z.to_nat n)%nat.
Proof.
  intros Hn Hm. unfold py_bound.
  assert (E : (- n <? 0)%Z = true) by (apply Z.ltb_lt; lia).
  rewrite E. lia.
Qed.

Lemma skipn_In {A : Type} (n : nat) (l : list A) (a : A) :
  In a (skipn n l) -> In a l.
Proof.
  intro H. rewrite <- (firstn_skipn n l). apply in_or_app. right. exact H.
Qed.

Lemma firstn_In {A : Type} (n : nat) (l : list A) (a : A) :
  In a (firstn n l) -> In a l.
Proof.
  intro H. rewrite <- (firstn_skipn n l). apply in_or_app. left. exact H.
Qed.

Lemma py_bound_full (m : Z) : (0 <= m)%Z -> py_bound m m = Z.to_nat m.
Proof.
  intro Hm. unfold py_bound.
  destruct (m <? 0)%Z eqn:E; [apply Z.ltb_lt in E; lia|]. lia.
Qed.

Lemma py_bound_pos (m n : Z) :
  (0 <= n <= m)%Z -> py_bound m n = Z.to_nat n.
Proof.
  intro H. unfold py_bound.
  destruct (n <? 0)%Z eqn:E; [apply Z.ltb_lt in E; lia|]. lia.
Qed.

(** X3.  On a series of exactly [n] points ([n >= 1]) [ema] is [sma]: the
    seed is the mean of all the points and no smoothing step is left to
    run. *)
Theorem ema_full_window_is_sma (values : list Q) (n : Z) :
  (1 <= n)%Z -> len values = n -> ema values n = sma values n.
Proof.
  intros Hn Hlen. unfold ema, sma.
  rewrite window_guard_passes by lia.
  unfold slice_from, slice_to.
  rewrite py_bound_neg by (unfold len; lia).
  rewrite <- Hlen. rewrite py_bound_full by (unfold len; lia).
  unfold len. rewrite Nat2Z.id.
  rewrite skipn_all, firstn_all, Nat.sub_diag. reflexivity.
Qed.

Lemma ema_full_window_is_sma_witness :
  ema [7; 9; 8] 3 = sma [7; 9; 8] 3.
Proof.
  apply (ema_full_window_is_sma [7; 9; 8] 3).
  - vm_compute. discriminate.
  - reflexivity.
Defined.

(* ------------------------------------------------------------------ *)
(** ** RSI: range and extremes *)

Lemma rsi_spec_range (values : list Q) (n : Z) : 0 <= rsi_spec values n <= 100.
Proof.
  unfold rsi_spec.
  remember (last_n (Z.to_nat n) (diffs values)) as ds eqn:Hds. clear Hds.
  destruct (Qeq_bool (losses_of ds) 0) eqn:Ez; [split; lra|].
  apply Qeq_bool_false in Ez.
  pose proof (gains_of_nonneg ds) as G0.
  pose proof (losses_of_nonneg ds) as L0.
  assert (Lpos : 0 < losses_of ds).
  { apply Qle_lteq in L0. destruct L0 as [H|H]; [exact H|].
    exfalso. apply Ez. symmetry. exact H. }
  assert (Hrs : 0 <= gains_of ds / losses_of ds).
  { apply Qle_shift_div_l; [exact Lpos|]. lra. }
  remember (gains_of ds / losses_of ds) as rs eqn:Hr. clear Hr.
  assert (H1 : 0 <= 100 / (1 + rs)) by (apply Qle_shift_div_l; lra).
  assert (H2 : 100 / (1 + rs) <= 100) by (apply Qle_shift_div_r; lra).
  split; lra.
Qed.

Lemma rsi_some_enough (values : list Q) (n : Z) (q : Q) :
  rsi values n = Ok (Some q) -> (n + 1 <= len values)%Z.
Proof.
  unfold rsi. destruct (len values <? n + 1)%Z eqn:E.
  - discriminate.
  - intros _. apply Z.ltb_ge in E. exact E.
Qed.

(** X4.  Whenever [rsi] returns a number, it lies between 0 and 100. *)
Theorem rsi_range (values : list Q) (n : Z) (q : Q) :
  rsi values n = Ok (Some q) -> 0 <= q <= 100.
Proof.
  intro H. pose proof (rsi_some_enough values n q H) as Hn.
  destruct (rsi_enough values n Hn) as [q' [Hq' Heq]].
  rewrite H in Hq'. inversion Hq'; subst q'.
  pose proof (rsi_spec_range values n) as R.
  split; rewrite Heq; apply R.
Qed.

Lemma rsi_range_witness :
  exists q, rsi [10; 9; 8; 9] 3 = Ok (Some q) /\ 0 <= q <= 100.
Proof.
  eexists. split; [vm_compute; reflexivity|].
  apply (rsi_range [10; 9; 8; 9] 3). vm_compute. reflexivity.
Defined.

Lemma losses_of_no_loss (ds : list Q) :
  (forall d, In d ds -> 0 <= d) -> losses_of ds = 0.
Proof.
  unfold losses_of. induction ds as [|d ds IH]; intro H; simpl; [reflexivity|].
  assert (Hd : Qle_bool 0 d = true)
    by (apply Qle_bool_iff; apply H; left; reflexivity).
  rewrite Hd. simpl. apply IH. intros e He. apply H. right. exact He.
Qed.

Lemma gains_of_no_gain (ds : list Q) :
  (forall d, In d ds -> d <= 0) -> gains_of ds == 0.
Proof.
  unfold gains_of. induction ds as [|d ds IH]; intro H; simpl; [reflexivity|].
  assert (IH' : sumQ (filter (fun d0 => Qle_bool 0 d0) ds) == 0).
  { apply IH. intros e He. apply H. right. exact He. }
  destruct (Qle_bool 0 d) eqn:Hd; simpl; [|exact IH'].
  apply Qle_bool_iff in Hd.
  assert (Hd' : d <= 0) by (apply H; left; reflexivity).
  rewrite IH'. lra.
Qed.

Lemma losses_of_some_loss (ds : list Q) :
  (exists d, In d ds /\ d < 0) -> 0 < losses_of ds.
Proof.
  intros [d [Hin Hd]]. unfold losses_of.
  induction ds as [|e ds IH]; [contradiction|].
  pose proof (losses_of_nonneg ds) as L0. unfold losses_of in L0.
  simpl. destruct Hin as [->|Hin].
  - assert (E : Qle_bool 0 d = false) by (apply Qle_bool_false; exact Hd).
    rewrite E. simpl.
    rewrite (Qabs_neg d) by lra. lra.
  - specialize (IH Hin).
    destruct (Qle_bool 0 e); simpl; [exact IH|].
    pose proof (Qabs_nonneg e). lra.
Qed.

(** X5.  On a series of at least [n + 1] points: if none of the last [n]
    differences is negative, [rsi] returns exactly 100; if none is positive
    and one is negative, it returns 0. *)
Theorem rsi_extremes (values : list Q) (n : Z) :
  (n + 1 <= len values)%Z ->
  ((forall d, In d (last_n (Z.to_nat n) (diffs values)) -> 0 <= d) ->
     exists q, rsi values n = Ok (Some q) /\ q == 100)
  /\ ((forall d, In d (last_n (Z.to_nat n) (diffs values)) -> d <= 0) ->
      (exists d, In d (last_n (Z.to_nat n) (diffs values)) /\ d < 0) ->
      exists q, rsi values n = Ok (Some q) /\ q == 0).
Proof.
  intro Hn. destruct (rsi_enough values n Hn) as [q [Hq Heq]].
  unfold rsi_spec in Heq.
  remember (last_n (Z.to_nat n) (diffs values)) as ds eqn:Hds. clear Hds.
  split.
  - intro H. exists q. split; [exact Hq|].
    rewrite (losses_of_no_loss ds H) in Heq. exact Heq.
  - intros H1 H2. exists q. split; [exact Hq|].
    pose proof (gains_of_no_gain ds H1) as G.
    pose proof (losses_of_some_loss ds H2) as L.
    assert (Ez : Qeq_bool (losses_of ds) 0 = false)
      by (apply Qeq_bool_false; lra).
    rewrite Ez in Heq. rewrite Heq, G.
    field. lra.
Qed.

Lemma rsi_extremes_witness :
  (exists q, rsi [5; 6; 6; 8] 3 = Ok (Some q) /\ q == 100)
  /\ (exists q, rsi [9; 8; 8; 5] 3 = Ok (Some q) /\ q == 0).
Proof.
  split.
  - apply (rsi_extremes [5; 6; 6; 8] 3); [vm_compute; discriminate|].
    intros d Hd. simpl in Hd.
    destruct Hd as [<-|[<-|[<-|[]]]]; vm_compute; discriminate.
  - apply (rsi_extremes [9; 8; 8; 5] 3); [vm_compute; discriminate| |].
    + intros d Hd. simpl in Hd.
      destruct Hd as [<-|[<-|[<-|[]]]]; vm_compute; discriminate.
    + exists (8 - 9). split; [left; reflexivity|vm_compute; reflexivity].
Defined.

(* ------------------------------------------------------------------ *)
(** ** Signals and missing indicators *)

Lemma usable_None_truthy (v : option Q) : usable v = None -> truthy v = false.
Proof.
  unfold usable, truthy. destruct v as [q|]; [|reflexivity].
  destruct (Qeq_bool q 0); [reflexivity|discriminate].
Qed.

Lemma signals_off (x : Snapshot) :
  usable (x_ema200 x) = None \/ usable (x_sfast x) = None
  \/ usable (x_sslow x) = None \/ usable (x_rsi x) = None ->
  long_sig x = false /\ short_sig x = false.
Proof.
  unfold long_sig, short_sig, both_and_gt, both_and_lt,
    and_price_gt, and_price_lt, and_gt, and_lt.
  intros [H|[H|[H|H]]]; apply usable_None_truthy in H; rewrite H; simpl;
    rewrite ?andb_false_r; auto.
Qed.

Lemma decide_signals_off (x : Snapshot) (p : Position) :
  long_sig x = false -> short_sig x = false ->
  fst (decide x p) = match side p with Flat => hold | _ => manage end.
Proof.
  intros HL HS. unfold decide. rewrite HL, HS.
  destruct (side p); reflexivity.
Qed.

(** X11.  An indicator among the trend average, the two simple averages and
    the RSI that is [None] or exactly [0.0] switches both signals off:
    [decide] then answers hold on a flat position and manage on an open
    one, never an open or a close. *)
Theorem signals_need_usable_indicators (x : Snapshot) (p : Position) :
  usable (x_ema200 x) = None \/ usable (x_sfast x) = None
  \/ usable (x_sslow x) = None \/ usable (x_rsi x) = None ->
  long_sig x = false /\ short_sig x = false
  /\ fst (decide x p) = match side p with Flat => hold | _ => manage end.
Proof.
  intro H. destruct (signals_off x H) as [HL HS].
  split; [exact HL|]. split; [exact HS|].
  apply decide_signals_off; assumption.
Qed.

Lemma signals_need_usable_indicators_witness :
  let x := mkSnapshot (Some 110) (Some 90) (Some 100) (Some 0) (Some 2) 80 in
  fst (decide x (mkPosition Long 100 1 97 104)) = manage.
Proof.
  intro x.
  destruct (signals_need_usable_indicators x (mkPosition Long 100 1 97 104))
    as [_ [_ H]]; [|exact H].
  right. right. right. reflexivity.
Defined.

(** X12.  The long and the short signal are never both on: their
    conditions on the two simple averages exclude each other, so the order
    in which [decide] tests them changes nothing. *)
Theorem signals_exclusive (x : Snapshot) :
  (long_sig x && short_sig x)%bool = false.
Proof.
  destruct (long_sig x) eqn:HL; [|reflexivity].
  destruct (short_sig x) eqn:HS; [|reflexivity].
  exfalso.
  unfold long_sig, both_and_gt in HL. unfold short_sig, both_and_lt in HS.
  apply andb_true_iff in HL. destruct HL as [HL _].
  apply andb_true_iff in HL. destruct HL as [HL _].
  apply andb_true_iff in HL. destruct HL as [_ HL].
  apply andb_true_iff in HS. destruct HS as [HS _].
  apply andb_true_iff in HS. destruct HS as [HS _].
  apply andb_true_iff in HS. destruct HS as [_ HS].
  destruct (x_sfast x) as [sf|]; [|discriminate].
  destruct (x_sslow x) as [ss|]; [|discriminate].
  apply Qltb_lt in HL. apply Qltb_lt in HS. lra.
Qed.

(* ------------------------------------------------------------------ *)
(** ** ATR and the snapshot *)

Lemma py_max3_ge (a b c : Q) :
  a <= py_max3 a b c /\ b <= py_max3 a b c /\ c <= py_max3 a b c.
Proof.
  unfold py_max3.
  pose proof (py_max_ge_l a b). pose proof (py_max_ge_r a b).
  pose proof (py_max_ge_l (py_max a b) c).
  pose proof (py_max_ge_r (py_max a b) c).
  repeat split; lra.
Qed.

Lemma true_range_nonneg (high low close : list Q) (i : Z) (t : Q) :
  true_range high low close i = Ok t -> 0 <= t.
Proof.
  unfold true_range, rbind.
  destruct (py_index high i) as [h|e]; [|discriminate].
  destruct (py_index low i) as [l|e]; [|discriminate].
  destruct (py_index close (i - 1)) as [c|e]; [|discriminate].
  intro H. inversion H as [Ht]. clear H Ht.
  destruct (py_max3_ge (h - l) (Qabs (h - c)) (Qabs (l - c))) as [_ [H2 _]].
  pose proof (Qabs_nonneg (h - c)) as H3.
  apply Qle_trans with (Qabs (h - c)); assumption.
Qed.

Lemma mapM_forall {A B : Type} (f : A -> res B) (P : B -> Prop)
    (l : list A) (l' : list B) :
  (forall a b, f a = Ok b -> P b) ->
  mapM f l = Ok l' -> forall b, In b l' -> P b.
Proof.
  intro Hf. revert l'. induction l as [|a l IH]; intros l' H b Hb; simpl in H.
  - inversion H; subst. contradiction.
  - destruct (f a) as [b0|e] eqn:Ea; simpl in H; [|discriminate].
    destruct (mapM f l) as [bs|e]; simpl in H; [|discriminate].
    inversion H; subst. destruct Hb as [<-|Hb].
    + apply (Hf a b0 Ea).
    + apply (IH bs eq_refl b Hb).
Qed.

Lemma wilder_step_between (n : Z) (a x lo hi : Q) :
  (1 <= n)%Z -> lo <= a <= hi -> lo <= x <= hi ->
  lo <= wilder_step n a x <= hi.
Proof.
  intros Hn [Ha1 Ha2] [Hx1 Hx2]. unfold wilder_step.
  assert (Hm : 1 <= inject_Z n).
  { change 1 with (inject_Z 1). rewrite <- Zle_Qle. exact Hn. }
  assert (E : inject_Z (n - 1) == inject_Z n - 1).
  { unfold Z.sub. rewrite inject_Z_plus. reflexivity. }
  rewrite E.
  remember (inject_Z n) as m eqn:Hmm. clear Hmm E.
  assert (A1 : 0 <= (a - lo) * (m - 1)) by (apply Qmult_le_0_compat; lra).
  assert (A2 : 0 <= (hi - a) * (m - 1)) by (apply Qmult_le_0_compat; lra).
  split.
  - apply Qle_shift_div_l; lra.
  - apply Qle_shift_div_r; lra.
Qed.

Lemma wilder_fold_between (n : Z) (lo hi : Q) (l : list Q) (a : Q) :
  (1 <= n)%Z -> lo <= a <= hi ->
  (forall x, In x l -> lo <= x <= hi) ->
  lo <= fold_left (wilder_step n) l a <= hi.
Proof.
  intro Hn. revert a. induction l as [|x l IH]; intros a Ha H; simpl.
  - exact Ha.
  - apply IH.
    + apply wilder_step_between; [exact Hn|exact Ha|apply H; left; reflexivity].
    + intros y Hy. apply H. right. exact Hy.
Qed.

(** What [atr] returns once both length tests have passed. *)
Lemma atr_some_inv (high low close : list Q) (n : Z) (a : Q) :
  (1 <= n)%Z -> atr high low close n = Ok (Some a) ->
  exists trs,
    mapM (true_range high low close) (py_range 1 (len close)) = Ok trs
    /\ (n <= len trs)%Z
    /\ a = fold_left (wilder_step n) (slice_from trs n)
             (py_sum (slice_to trs n) / inject_Z n).
Proof.
  intros Hn. unfold atr.
  destruct (len close <? n + 1)%Z; [discriminate|].
  destruct (mapM _ _) as [trs|e]; simpl; [|discriminate].
  destruct (len trs <? n)%Z eqn:E; [discriminate|].
  apply Z.ltb_ge in E.
  rewrite py_div_ok by (apply inject_Z_nonzero; lia). simpl.
  intro H. inversion H. exists trs. auto.
Qed.

(** X6.  For a window [n >= 1], every true range that [atr] computes is
    non-negative, a number returned by [atr] is never negative, and one
    that passes the truth test of the loop ([x["atr"]], not zero) is
    positive. *)
Theorem atr_nonneg (high low close : list Q) (n : Z) (a : Q) :
  (1 <= n)%Z -> atr high low close n = Ok (Some a) ->
  0 <= a
  /\ (truthy (Some a) = true -> 0 < a)
  /\ exists trs,
       mapM (true_range high low close) (py_range 1 (len close)) = Ok trs
       /\ forall t, In t trs -> 0 <= t.
Proof.
  intros Hn H.
  destruct (atr_some_inv high low close n a Hn H) as [trs [Hm [Hlen Ha]]].
  assert (Hnn : forall t, In t trs -> 0 <= t).
  { apply (mapM_forall (true_range high low close) (fun t => 0 <= t)
             (py_range 1 (len close)) trs); [|exact Hm].
    intros i t. apply true_range_nonneg. }
  assert (Hub : exists hi, forall t, In t trs -> t <= hi).
  { clear. induction trs as [|u l IH].
    - exists 0. intros t [].
    - destruct IH as [hi Hhi]. exists (py_max hi u).
      intros t [<-|Ht].
      + apply py_max_ge_r.
      + apply Qle_trans with hi; [apply Hhi; exact Ht|apply py_max_ge_l]. }
  destruct Hub as [hi Hhi].
  assert (Hin : forall t, In t trs -> 0 <= t <= hi).
  { intros t Ht. split; [apply Hnn; exact Ht|apply Hhi; exact Ht]. }
  assert (H0 : 0 <= a).
  { assert (Hb : 0 <= a <= hi); [|apply Hb].
    rewrite Ha. apply wilder_fold_between.
    - exact Hn.
    - apply mean_bounds; [exact Hn| |].
      + unfold slice_to. rewrite py_bound_pos by (unfold len in *; lia).
        unfold len in *. rewrite length_firstn. lia.
      + intros v Hv. apply Hin. unfold slice_to in Hv.
        apply (firstn_In _ _ _ Hv).
    - intros v Hv. apply Hin. unfold slice_from in Hv.
      apply (skipn_In _ _ _ Hv). }
  split; [exact H0|]. split; [|exists trs; auto].
  unfold truthy. intro Ht.
  destruct (Qeq_bool a 0) eqn:E; [discriminate Ht|].
  apply Qeq_bool_false in E.
  destruct (Qlt_le_dec 0 a) as [Hlt|Hle]; [exact Hlt|].
  exfalso. apply E. apply Qle_antisym; assumption.
Qed.

Lemma atr_nonneg_witness :
  exists a, atr [2; 3; 5] [0; 1; 3] [1; 2; 4] 2 = Ok (Some a) /\ 0 < a.
Proof.
  eexists. split; [vm_compute; reflexivity|].
  apply (atr_nonneg [2; 3; 5] [0; 1; 3] [1; 2; 4] 2).
  - vm_compute. discriminate.
  - vm_compute. reflexivity.
  - vm_compute. reflexivity.
Defined.

Lemma py_index_cases (l : list Q) (i : Z) :
  (exists v, py_index l i = Ok v) \/ py_index l i = Raise IndexError.
Proof.
  unfold py_index. destruct (_ && _)%bool; [left; eexists; reflexivity|right; reflexivity].
Qed.

Lemma py_index_beyond (l : list Q) (i : Z) :
  (len l <= i)%Z -> py_index l i = Raise IndexError.
Proof.
  intro H. unfold py_index.
  assert (Hl : (0 <= len l)%Z) by (unfold len; lia).
  assert (E1 : (i <? 0)%Z = false) by (apply Z.ltb_ge; lia).
  rewrite E1.
  assert (E2 : (i <? len l)%Z = false) by (apply Z.ltb_ge; lia).
  rewrite E2, andb_false_r. reflexivity.
Qed.

Lemma true_range_cases (high low close : list Q) (i : Z) :
  (exists t, true_range high low close i = Ok t)
  \/ true_range high low close i = Raise IndexError.
Proof.
  unfold true_range.
  destruct (py_index_cases high i) as [[h ->]| ->]; simpl; [|right; reflexivity].
  destruct (py_index_cases low i) as [[l ->]| ->]; simpl; [|right; reflexivity].
  destruct (py_index_cases close (i - 1)) as [[c ->]| ->]; simpl;
    [left; eexists; reflexivity|right; reflexivity].
Qed.

Lemma true_range_beyond (high low close : list Q) (i : Z) :
  (len high <= i)%Z \/ (len low <= i)%Z ->
  true_range high low close i = Raise IndexError.
Proof.
  intro H. unfold true_range. destruct H as [H|H].
  - rewrite (py_index_beyond high i H). reflexivity.
  - destruct (py_index_cases high i) as [[h ->]| ->]; [|reflexivity].
    unfold rbind at 1. rewrite (py_index_beyond low i H). reflexivity.
Qed.

Lemma mapM_raise {A B : Type} (f : A -> res B) (e : exn) (l : list A) (a : A) :
  (forall x, In x l -> (exists b, f x = Ok b) \/ f x = Raise e) ->
  In a l -> f a = Raise e -> mapM f l = Raise e.
Proof.
  induction l as [|x l IH]; intros Hall Hin Ha; [contradiction|].
  simpl. destruct (Hall x (or_introl eq_refl)) as [[b Hb]|Hx].
  - rewrite Hb. simpl. destruct Hin as [->|Hin]; [congruence|].
    rewrite IH; [reflexivity| |exact Hin|exact Ha].
    intros y Hy. apply Hall. right. exact Hy.
  - rewrite Hx. reflexivity.
Qed.

Lemma py_range_In_intro (a b i : Z) : (a <= i < b)%Z -> In i (py_range a b).
Proof.
  intro H. unfold py_range. apply in_map_iff.
  exists (Z.to_nat (i - a)). split; [lia|].
  apply in_seq. lia.
Qed.

Lemma atr_index_error (high low close : list Q) (n : Z) :
  (n + 1 <= len close)%Z -> (2 <= len close)%Z ->
  (len high < len close)%Z \/ (len low < len close)%Z ->
  atr high low close n = Raise IndexError.
Proof.
  intros Hn H2 Hshort. unfold atr.
  assert (E : (len close <? n + 1)%Z = false) by (apply Z.ltb_ge; lia).
  rewrite E.
  rewrite (mapM_raise (true_range high low close) IndexError
             (py_range 1 (len close)) (len close - 1)%Z).
  - reflexivity.
  - intros i _. apply true_range_cases.
  - apply py_range_In_intro. lia.
  - apply true_range_beyond. lia.
Qed.

(** X7.  With a window [n >= 1] and at least [n + 1] closes, [atr] raises
    exactly when the high or the low series is shorter than the close
    series, and what it raises is an IndexError; otherwise it returns a
    number. *)
Theorem atr_raises_iff_short_series (high low close : list Q) (n : Z) :
  (1 <= n)%Z -> (n + 1 <= len close)%Z ->
  ((len high < len close)%Z \/ (len low < len close)%Z ->
     atr high low close n = Raise IndexError)
  /\ ((len close <= len high)%Z -> (len close <= len low)%Z ->
      exists q, atr high low close n = Ok (Some q)).
Proof.
  intros Hn Hc. split.
  - apply atr_index_error; lia.
  - apply atr_enough; assumption.
Qed.

Lemma atr_raises_iff_short_series_witness :
  atr [2; 3] [0; 1; 3] [1; 2; 4] 2 = Raise IndexError
  /\ exists q, atr [2; 3; 5] [0; 1; 3] [1; 2; 4] 2 = Ok (Some q).
Proof.
  split.
  - apply (atr_raises_iff_short_series [2; 3] [0; 1; 3] [1; 2; 4] 2);
      try (vm_compute; discriminate).
    left. vm_compute. reflexivity.
  - apply (atr_raises_iff_short_series [2; 3; 5] [0; 1; 3] [1; 2; 4] 2);
      vm_compute; discriminate.
Defined.

Lemma nth_pred_last (l : list Q) (d : Q) :
  nth (length l - 1) l d = last l d.
Proof.
  induction l as [|a l IH]; [reflexivity|].
  destruct l as [|b t]; [reflexivity|].
  simpl length in *.
  replace (S (S (length t)) - 1)%nat with (S (length t)) by lia.
  replace (S (length t) - 1)%nat with (length t) in IH by lia.
  change (last (a :: b :: t) d) with (last (b :: t) d).
  change (nth (S (length t)) (a :: b :: t) d) with (nth (length t) (b :: t) d).
  exact IH.
Qed.

Lemma py_index_last (c : list Q) :
  c <> [] -> py_index c (-1) = Ok (last c 0).
Proof.
  intro Hc. rewrite py_index_neg.
  - f_equal. rewrite <- nth_pred_last. f_equal. unfold len. lia.
  - unfold len. destruct c; [contradiction|]. simpl length. lia.
Qed.

Lemma rsi_never_raises (values : list Q) (n : Z) :
  exists r, rsi values n = Ok r.
Proof.
  destruct (Z.lt_ge_cases (len values) (n + 1)) as [H|H].
  - exists None. apply rsi_short. exact H.
  - destruct (rsi_enough values n H) as [q [Hq _]]. exists (Some q). exact Hq.
Qed.

Lemma compute_indicators_fields (k : Klines) (x : Snapshot) :
  compute_indicators k = Ok x ->
  x_ema200 x = ema (k_close k) EMA_TREND
  /\ x_sfast x = sma (k_close k) SMA_FAST
  /\ x_sslow x = sma (k_close k) SMA_SLOW
  /\ rsi (k_close k) RSI_LEN = Ok (x_rsi x)
  /\ atr (k_high k) (k_low k) (k_close k) ATR_LEN = Ok (x_atr x)
  /\ py_index (k_close k) (-1) = Ok (x_close x).
Proof.
  unfold compute_indicators. intro Hx.
  destruct (rsi (k_close k) RSI_LEN) as [r|e]; simpl in Hx; [|discriminate].
  destruct (atr (k_high k) (k_low k) (k_close k) ATR_LEN) as [a|e];
    simpl in Hx; [|discriminate].
  destruct (py_index (k_close k) (-1)) as [cl|e]; simpl in Hx; [|discriminate].
  inversion Hx; subst x. simpl. auto 10.
Qed.

(** When [compute_indicators] raises and what it returns. *)
Lemma compute_indicators_cases (k : Klines) :
  (k_close k = [] -> compute_indicators k = Raise IndexError)
  /\ ((ATR_LEN + 1 <= len (k_close k))%Z ->
      (len (k_high k) < len (k_close k))%Z \/ (len (k_low k) < len (k_close k))%Z ->
      compute_indicators k = Raise IndexError)
  /\ (k_close k <> [] ->
      (len (k_close k) < ATR_LEN + 1)%Z
      \/ ((len (k_close k) <= len (k_high k))%Z
          /\ (len (k_close k) <= len (k_low k))%Z) ->
      exists x, compute_indicators k = Ok x
        /\ x_close x = last (k_close k) 0
        /\ x_ema200 x = ema (k_close k) EMA_TREND
        /\ x_sfast x = sma (k_close k) SMA_FAST
        /\ x_sslow x = sma (k_close k) SMA_SLOW).
Proof.
  destruct (rsi_never_raises (k_close k) RSI_LEN) as [r Hr].
  split; [|split].
  - intro Hc. unfold compute_indicators. rewrite Hr, Hc. unfold rbind at 1.
    rewrite atr_short by (unfold ATR_LEN; vm_compute; reflexivity).
    reflexivity.
  - intros Hlen Hshort. unfold compute_indicators. rewrite Hr. unfold rbind at 1.
    rewrite atr_index_error; [reflexivity|exact Hlen| |exact Hshort].
    unfold ATR_LEN in Hlen. lia.
  - intros Hc Hok.
    assert (Ha : exists a, atr (k_high k) (k_low k) (k_close k) ATR_LEN = Ok a).
    { destruct Hok as [H|[H1 H2]].
      - exists None. apply atr_short. exact H.
      - destruct (Z.lt_ge_cases (len (k_close k)) (ATR_LEN + 1)) as [H|H].
        + exists None. apply atr_short. exact H.
        + destruct (atr_enough (k_high k) (k_low k) (k_close k) ATR_LEN)
            as [q Hq]; try assumption; [unfold ATR_LEN; lia|].
          exists (Some q). exact Hq. }
    destruct Ha as [a Ha].
    unfold compute_indicators. rewrite Hr, Ha, (py_index_last _ Hc).
    eexists. split; [reflexivity|]. simpl. auto.
Qed.

(** X8.  [compute_indicators] raises, an IndexError, exactly in two cases:
    the close series is empty, or there are at least 15 closes and the high
    or the low series is shorter than the close series.  Otherwise it
    returns a snapshot whose close is the last close and whose averages are
    those of the close series. *)
Theorem compute_indicators_raises_iff (k : Klines) :
  (k_close k = [] -> compute_indicators k = Raise IndexError)
  /\ ((ATR_LEN + 1 <= len (k_close k))%Z ->
      (len (k_high k) < len (k_close k))%Z \/ (len (k_low k) < len (k_close k))%Z ->
      compute_indicators k = Raise IndexError)
  /\ (k_close k <> [] ->
      (len (k_close k) < ATR_LEN + 1)%Z
      \/ ((len (k_close k) <= len (k_high k))%Z
          /\ (len (k_close k) <= len (k_low k))%Z) ->
      exists x, compute_indicators k = Ok x
        /\ x_close x = last (k_close k) 0
        /\ x_ema200 x = ema (k_close k) EMA_TREND
        /\ x_sfast x = sma (k_close k) SMA_FAST
        /\ x_sslow x = sma (k_close k) SMA_SLOW).
Proof. apply compute_indicators_cases. Qed.

Lemma compute_indicators_raises_iff_witness :
  compute_indicators (mkKlines [] [] [] []) = Raise IndexError
  /\ exists x, compute_indicators short_klines = Ok x
       /\ x_close x = last (k_close short_klines) 0.
Proof.
  destruct (compute_indicators_raises_iff (mkKlines [] [] [] [])) as [H1 _].
  destruct (compute_indicators_raises_iff short_klines) as [_ [_ H3]].
  split; [apply H1; reflexivity|].
  destruct H3 as [x [Hx [Hc _]]].
  - discriminate.
  - left. vm_compute. reflexivity.
  - exists x. auto.
Defined.

(** X9.  On a snapshot computed from fewer than 200 closes the trend
    average is missing, so both signals are off: [decide] answers hold on a
    flat position and manage on an open one; no entry and no signal close
    happens before 200 candles are there. *)
Theorem no_signal_before_warm_up (k : Klines) (x : Snapshot) (p : Position) :
  compute_indicators k = Ok x ->
  (len (k_close k) < EMA_TREND)%Z ->
  long_sig x = false /\ short_sig x = false
  /\ fst (decide x p) = match side p with Flat => hold | _ => manage end.
Proof.
  intros Hx Hlen.
  destruct (compute_indicators_fields k x Hx) as [He _].
  assert (Hu : usable (x_ema200 x) = None).
  { rewrite He, (ema_short _ _ Hlen). reflexivity. }
  destruct (signals_off x (or_introl Hu)) as [HL HS].
  split; [exact HL|]. split; [exact HS|].
  apply decide_signals_off; assumption.
Qed.

Lemma no_signal_before_warm_up_witness :
  exists x, compute_indicators short_klines = Ok x
    /\ fst (decide x Position0) = hold.
Proof.
  eexists. split; [vm_compute; reflexivity|].
  apply (no_signal_before_warm_up short_klines _ Position0).
  - vm_compute. reflexivity.
  - vm_compute. reflexivity.
Defined.

Lemma entry_signal_has_atr_witness :
  exists x a, compute_indicators rising_klines = Ok x
    /\ long_sig x = true /\ x_atr x = Some a.
Proof.
  destruct (compute_indicators rising_klines) as [x|e] eqn:Hx;
    [|vm_compute in Hx; discriminate Hx].
  assert (HL : long_sig x = true).
  { vm_compute in Hx. inversion Hx. vm_compute. reflexivity. }
  pose proof (entry_signal_has_atr rising_klines x Hx (or_introl HL)) as Ha.
  destruct (x_atr x) as [a|] eqn:Ea; [|exfalso; apply Ha; reflexivity].
  exists x, a. auto.
Defined.

Lemma decide_flat_nonzero_witness :
  let x := mkSnapshot (Some 90) (Some 110) (Some 100) (Some 60) None 120 in
  fst (decide x Position0) = open_long.
Proof.
  intro x.
  destruct (decide_flat_nonzero 90 110 100 60 None 120 Position0) as [[_ H] _];
    try (vm_compute; discriminate); [reflexivity|].
  apply H. repeat split; vm_compute; reflexivity.
Defined.

(* ------------------------------------------------------------------ *)
(** ** Rounding to a step, sizing and brackets *)

Lemma round_half_even_floor (x : Q) :
  (Qfloor x <= round_half_even x <= Qfloor x + 1)%Z.
Proof.
  unfold round_half_even.
  destruct (Qltb _ _); [lia|].
  destruct (Qltb _ _); [lia|].
  destruct (Z.even _); lia.
Qed.

Lemma round_half_even_mono (x y : Q) :
  x <= y -> (round_half_even x <= round_half_even y)%Z.
Proof.
  intro Hxy.
  pose proof (Qfloor_resp_le x y Hxy) as Hf.
  pose proof (round_half_even_floor x) as Bx.
  pose proof (round_half_even_floor y) as By.
  destruct (Z.lt_ge_cases (Qfloor x) (Qfloor y)) as [Hlt|Hge]; [lia|].
  assert (E : Qfloor x = Qfloor y) by lia.
  unfold round_half_even. rewrite E.
  remember (inject_Z (Qfloor y)) as f eqn:Hfy. clear Hfy.
  destruct (Qltb (x - f) (1 # 2)) eqn:X1;
    destruct (Qltb (y - f) (1 # 2)) eqn:Y1;
    try lia.
  - destruct (Qltb (1 # 2) (y - f)); [lia|]. destruct (Z.even (Qfloor y)); lia.
  - apply Qltb_ge in X1. apply Qltb_lt in Y1. lra.
  - apply Qltb_ge in X1. apply Qltb_ge in Y1.
    destruct (Qltb (1 # 2) (x - f)) eqn:X2;
      destruct (Qltb (1 # 2) (y - f)) eqn:Y2; try lia.
    + apply Qltb_lt in X2. apply Qltb_ge in Y2. lra.
    + destruct (Z.even (Qfloor y)); lia.
Qed.

Lemma fmt6_mono (x y : Q) : x <= y -> fmt6 x <= fmt6 y.
Proof.
  intro Hxy. unfold fmt6.
  assert (H : x * 1000000 <= y * 1000000) by lra.
  apply round_half_even_mono in H. rewrite Zle_Qle in H.
  remember (inject_Z (round_half_even (x * 1000000))) as a eqn:Ha. clear Ha.
  remember (inject_Z (round_half_even (y * 1000000))) as b eqn:Hb. clear Hb.
  apply Qle_shift_div_l; [reflexivity|].
  assert (E : a / 1000000 * 1000000 == a) by field.
  lra.
Qed.

Lemma round_half_even_Z (k : Z) (x : Q) : x == inject_Z k -> round_half_even x = k.
Proof.
  intro E. unfold round_half_even.
  assert (F : Qfloor x = k).
  { rewrite (Qfloor_comp _ _ E). apply Qfloor_Z. }
  rewrite F.
  assert (T : Qltb (x - inject_Z k) (1 # 2) = true) by (apply Qltb_lt; lra).
  rewrite T. reflexivity.
Qed.

(** A quantity with at most six decimals is unchanged by the rounding of
    the result. *)
Lemma fmt6_six_decimals (k : Z) (q : Q) :
  q == inject_Z k / 1000000 -> fmt6 q == q.
Proof.
  intro E. unfold fmt6.
  rewrite (round_half_even_Z k); [symmetry; exact E|].
  rewrite E. field.
Qed.

(** What [position_sizing] does when no division fails. *)
Lemma position_sizing_value (inst : Instrument) (equity price atr_val : Q) :
  let stop_dist := py_max (atr_val * ATR_SL_MULT) (price * (2 # 1000)) in
  let q1 := py_min (equity * RISK_PCT / stop_dist)
                   (equity * MAX_POS_EQUITY_FRAC * inject_Z MAX_LEVERAGE / price) in
  ~ stop_dist == 0 -> ~ price == 0 -> ~ qty_step inst == 0 ->
  position_sizing inst equity price atr_val
  = Ok (fmt6 (py_max (inject_Z (Qfloor (q1 / qty_step inst)) * qty_step inst)
                     (min_qty inst))).
Proof.
  intros stop_dist q1 Hs Hp Hq. unfold position_sizing.
  fold stop_dist.
  rewrite (py_div_ok _ stop_dist Hs). unfold rbind at 1.
  rewrite (py_div_ok _ price Hp). unfold rbind at 1.
  fold q1. unfold round_step.
  rewrite (py_div_ok _ (qty_step inst) Hq). reflexivity.
Qed.

(** When [position_sizing] divides by zero. *)
Lemma position_sizing_division (inst : Instrument) (equity price atr_val : Q) :
  let stop_dist := py_max (atr_val * ATR_SL_MULT) (price * (2 # 1000)) in
  (stop_dist == 0 \/ price == 0 \/ qty_step inst == 0 ->
   position_sizing inst equity price atr_val = Raise ZeroDivisionError)
  /\ (~ stop_dist == 0 -> ~ price == 0 -> ~ qty_step inst == 0 ->
      exists q, position_sizing inst equity price atr_val = Ok q).
Proof.
  intro stop_dist. split.
  - intro H. unfold position_sizing. fold stop_dist.
    unfold py_div at 1.
    destruct (Qeq_bool stop_dist 0) eqn:E1; [reflexivity|]. unfold rbind at 1.
    unfold py_div at 1.
    destruct (Qeq_bool price 0) eqn:E2; [reflexivity|]. unfold rbind at 1.
    unfold round_step, py_div.
    destruct (Qeq_bool (qty_step inst) 0) eqn:E3; [reflexivity|].
    exfalso. apply Qeq_bool_false in E1, E2, E3.
    destruct H as [H|[H|H]]; contradiction.
  - intros Hs Hp Hq. eexists.
    apply (position_sizing_value inst equity price atr_val Hs Hp Hq).
Qed.

(** X15.  [position_sizing] raises, a ZeroDivisionError, exactly when the
    stop distance [max(1.5 atr, 0.002 price)], the price or the quantity
    step is zero; otherwise it returns a quantity. *)
Theorem position_sizing_raises_iff (inst : Instrument) (equity price atr_val : Q) :
  let stop_dist := py_max (atr_val * ATR_SL_MULT) (price * (2 # 1000)) in
  (stop_dist == 0 \/ price == 0 \/ qty_step inst == 0 ->
   position_sizing inst equity price atr_val = Raise ZeroDivisionError)
  /\ (~ stop_dist == 0 -> ~ price == 0 -> ~ qty_step inst == 0 ->
      exists q, position_sizing inst equity price atr_val = Ok q).
Proof. apply position_sizing_division. Qed.

Lemma position_sizing_raises_iff_witness :
  position_sizing sample_instrument 10000 0 2 = Raise ZeroDivisionError
  /\ exists q, position_sizing sample_instrument 10000 100 2 = Ok q.
Proof.
  destruct (position_sizing_raises_iff sample_instrument 10000 0 2) as [H1 _].
  destruct (position_sizing_raises_iff sample_instrument 10000 100 2) as [_ H2].
  split.
  - apply H1. right. left. reflexivity.
  - apply H2; vm_compute; discriminate.
Defined.

Lemma position_sizing_ok_inv (inst : Instrument) (equity price atr_val q : Q) :
  position_sizing inst equity price atr_val = Ok q ->
  let stop_dist := py_max (atr_val * ATR_SL_MULT) (price * (2 # 1000)) in
  ~ stop_dist == 0 /\ ~ price == 0 /\ ~ qty_step inst == 0.
Proof.
  intros H stop_dist.
  destruct (position_sizing_division inst equity price atr_val) as [Hr _].
  fold stop_dist in Hr.
  repeat split; intro E; rewrite Hr in H; auto; discriminate.
Qed.

(** X16.  A quantity returned by [position_sizing] is never below the
    minimum order quantity as the six-decimal rounding shows it; it is at
    least the minimum itself whenever that has at most six decimals, and
    never more than 0.0000005 below it. *)
Theorem position_sizing_at_least_min_qty
    (inst : Instrument) (equity price atr_val q : Q) :
  position_sizing inst equity price atr_val = Ok q ->
  fmt6 (min_qty inst) <= q
  /\ min_qty inst - (1 # 2000000) <= q
  /\ forall k, min_qty inst == inject_Z k / 1000000 -> min_qty inst <= q.
Proof.
  intro H.
  destruct (position_sizing_ok_inv inst equity price atr_val q H) as [Hs [Hp Hq]].
  rewrite (position_sizing_value inst equity price atr_val Hs Hp Hq) in H.
  inversion H as [Hv]. clear H.
  match goal with
  | |- context [py_max ?r (min_qty inst)] =>
      pose proof (fmt6_mono _ _ (py_max_ge_r r (min_qty inst))) as Hm
  end.
  pose proof (fmt6_lower (min_qty inst)) as Hl.
  split; [exact Hm|]. split; [lra|].
  intros k Hk. rewrite <- (fmt6_six_decimals k (min_qty inst) Hk) at 1. exact Hm.
Qed.

Lemma position_sizing_at_least_min_qty_witness :
  exists q, position_sizing (mkInstrument (1 # 1000) 1 (1 # 100) 10) 1 100 1 = Ok q
    /\ 1 <= q.
Proof.
  eexists. split; [vm_compute; reflexivity|].
  destruct (position_sizing_at_least_min_qty
              (mkInstrument (1 # 1000) 1 (1 # 100) 10) 1 100 1 _ eq_refl)
    as [_ [_ H]].
  apply (H 1000000%Z). vm_compute. reflexivity.
Defined.

(** X17.  For a positive ATR and quantity step and a non-zero price, the
    quantity [q] that [position_sizing] returns loses, over the stop
    distance [d = max(1.5 atr, 0.002 price)], at most the risk budget
    [equity * RISK_PCT], or what the minimum order quantity loses if that
    is more, up to the six-decimal rounding of [q]:
    [q * d <= max(equity * RISK_PCT, min_qty * d) + 0.0000005 * d]. *)
Theorem position_sizing_risk (inst : Instrument) (equity price atr_val : Q) :
  0 < atr_val -> ~ price == 0 -> 0 < qty_step inst ->
  let d := py_max (atr_val * ATR_SL_MULT) (price * (2 # 1000)) in
  exists q, position_sizing inst equity price atr_val = Ok q
    /\ q * d <= py_max (equity * RISK_PCT) (min_qty inst * d) + (1 # 2000000) * d.
Proof.
  intros Ha Hp Hstep d.
  assert (Hd : 0 < d).
  { apply Qlt_le_trans with (atr_val * ATR_SL_MULT); [|apply py_max_ge_l].
    unfold ATR_SL_MULT. lra. }
  assert (Hd' : ~ d == 0) by lra.
  assert (Hq' : ~ qty_step inst == 0) by lra.
  rewrite (position_sizing_value inst equity price atr_val Hd' Hp Hq').
  eexists. split; [reflexivity|]. fold d.
  remember (py_min (equity * RISK_PCT / d)
              (equity * MAX_POS_EQUITY_FRAC * inject_Z MAX_LEVERAGE / price))
    as q1 eqn:Hq1.
  assert (Hq1le : q1 <= equity * RISK_PCT / d) by (rewrite Hq1; apply py_min_le_l).
  destruct (round_step_floor q1 (qty_step inst) Hstep) as [r [_ [Hr [Hrle _]]]].
  rewrite <- Hr.
  assert (Hrd : r * d <= equity * RISK_PCT).
  { assert (H : r * d <= equity * RISK_PCT / d * d)
      by (apply Qmult_le_compat_r; lra).
    assert (E : equity * RISK_PCT / d * d == equity * RISK_PCT) by (field; lra).
    lra. }
  pose proof (py_max_ge_l (equity * RISK_PCT) (min_qty inst * d)) as Hm1.
  pose proof (py_max_ge_r (equity * RISK_PCT) (min_qty inst * d)) as Hm2.
  remember (py_max (equity * RISK_PCT) (min_qty inst * d)) as m eqn:Hm. clear Hm.
  destruct (py_max_cases r (min_qty inst)) as [[Hlt E]|[Hge E]]; rewrite E.
  - pose proof (fmt6_upper (min_qty inst)) as Hf.
    assert (H : fmt6 (min_qty inst) * d <= (min_qty inst + (1 # 2000000)) * d)
      by (apply Qmult_le_compat_r; lra).
    lra.
  - pose proof (fmt6_upper r) as Hf.
    assert (H : fmt6 r * d <= (r + (1 # 2000000)) * d)
      by (apply Qmult_le_compat_r; lra).
    lra.
Qed.

Lemma position_sizing_risk_witness :
  exists q, position_sizing sample_instrument 10000 100 2 = Ok q
    /\ q * py_max (2 * ATR_SL_MULT) (100 * (2 # 1000))
       <= py_max (10000 * RISK_PCT)
                 (min_qty sample_instrument
                  * py_max (2 * ATR_SL_MULT) (100 * (2 # 1000)))
          + (1 # 2000000) * py_max (2 * ATR_SL_MULT) (100 * (2 # 1000)).
Proof.
  apply (position_sizing_risk sample_instrument 10000 100 2).
  - reflexivity.
  - vm_compute. discriminate.
  - reflexivity.
Defined.

Lemma floor_step_mono (v w step : Q) :
  0 < step -> v <= w ->
  inject_Z (Qfloor (v / step)) * step <= inject_Z (Qfloor (w / step)) * step.
Proof.
  intros Hs Hvw.
  assert (H : v / step <= w / step).
  { apply Qle_shift_div_l; [exact Hs|].
    assert (E : v / step * step == v) by (field; lra). lra. }
  apply Qfloor_resp_le in H. rewrite Zle_Qle in H.
  apply Qmult_le_compat_r; lra.
Qed.

(** X18.  For a positive tick and an ATR that is not negative,
    [bracket_prices] returns its two levels and never inverts them: the
    stop of a long is not above its target, the target of a short is not
    above its stop.  Both levels go through the same floor, which keeps the
    order of what it is given. *)
Theorem bracket_prices_not_inverted (inst : Instrument) (price atr_val : Q) :
  0 < tick_size inst -> 0 <= atr_val ->
  (exists t s, bracket_prices inst Long price atr_val = Ok (t, s) /\ s <= t)
  /\ (exists t s, bracket_prices inst Short price atr_val = Ok (t, s) /\ t <= s).
Proof.
  intros Ht Ha.
  destruct (round_step_floor (price - ATR_SL_MULT * atr_val) (tick_size inst) Ht)
    as [s1 [Hs1 [Es1 _]]].
  destruct (round_step_floor (price + ATR_TP_MULT * atr_val) (tick_size inst) Ht)
    as [t1 [Ht1 [Et1 _]]].
  destruct (round_step_floor (price + ATR_SL_MULT * atr_val) (tick_size inst) Ht)
    as [s2 [Hs2 [Es2 _]]].
  destruct (round_step_floor (price - ATR_TP_MULT * atr_val) (tick_size inst) Ht)
    as [t2 [Ht2 [Et2 _]]].
  split.
  - exists t1, s1. unfold bracket_prices. rewrite Hs1, Ht1. unfold rbind.
    split; [reflexivity|].
    rewrite Es1, Et1. apply floor_step_mono; [exact Ht|].
    unfold ATR_SL_MULT, ATR_TP_MULT. lra.
  - exists t2, s2. unfold bracket_prices. rewrite Hs2, Ht2. unfold rbind.
    split; [reflexivity|].
    rewrite Es2, Et2. apply floor_step_mono; [exact Ht|].
    unfold ATR_SL_MULT, ATR_TP_MULT. lra.
Qed.

Lemma bracket_prices_not_inverted_witness :
  (exists t s, bracket_prices sample_instrument Long 100 2 = Ok (t, s) /\ s <= t)
  /\ (exists t s, bracket_prices sample_instrument Short 100 2 = Ok (t, s) /\ t <= s).
Proof.
  apply (bracket_prices_not_inverted sample_instrument 100 2).
  - reflexivity.
  - vm_compute. discriminate.
Defined.

(* ------------------------------------------------------------------ *)
(** ** Circuit breakers: thresholds *)

Lemma ratio_le_iff (e d l : Q) :
  0 < d -> ((e - d) / d <= - l <-> e <= (1 - l) * d).
Proof.
  intro Hd. split; intro H.
  - assert (H1 : (e - d) / d * d <= - l * d)
      by (apply Qmult_le_compat_r; lra).
    assert (E : (e - d) / d * d == e - d) by (field; lra).
    lra.
  - apply Qle_shift_div_r; [exact Hd|]. lra.
Qed.

(** X19.  [circuit_breakers] pauses exactly when the daily baseline is
    positive and equity is at most 98% of it; it halts exactly when it does
    not pause, the session baseline is positive and equity is at most 95%
    of it; with both baselines zero or negative it never fires. *)
Theorem circuit_breakers_thresholds (b : Bot) (equity : Q) :
  (circuit_breakers b equity = Pause <->
     0 < day_start_equity b
     /\ equity <= (1 - DAILY_LOSS_LIMIT) * day_start_equity b)
  /\ (circuit_breakers b equity = Halt <->
     ~ (0 < day_start_equity b
        /\ equity <= (1 - DAILY_LOSS_LIMIT) * day_start_equity b)
     /\ 0 < start_equity b
     /\ equity <= (1 - GLOBAL_DD_LIMIT) * start_equity b)
  /\ (day_start_equity b <= 0 -> start_equity b <= 0 ->
      circuit_breakers b equity = NoBreak).
Proof.
  unfold circuit_breakers.
  assert (P : (Qltb 0 (day_start_equity b)
               && Qle_bool ((equity - day_start_equity b) / day_start_equity b)
                           (- DAILY_LOSS_LIMIT))%bool = true
              <-> 0 < day_start_equity b
                  /\ equity <= (1 - DAILY_LOSS_LIMIT) * day_start_equity b).
  { rewrite andb_true_iff, Qltb_lt, Qle_bool_iff. split.
    - intros [H1 H2]. split; [exact H1|]. apply ratio_le_iff; assumption.
    - intros [H1 H2]. split; [exact H1|]. apply ratio_le_iff; assumption. }
  assert (G : (Qltb 0 (start_equity b)
               && Qle_bool ((equity - start_equity b) / start_equity b)
                           (- GLOBAL_DD_LIMIT))%bool = true
              <-> 0 < start_equity b
                  /\ equity <= (1 - GLOBAL_DD_LIMIT) * start_equity b).
  { rewrite andb_true_iff, Qltb_lt, Qle_bool_iff. split.
    - intros [H1 H2]. split; [exact H1|]. apply ratio_le_iff; assumption.
    - intros [H1 H2]. split; [exact H1|]. apply ratio_le_iff; assumption. }
  destruct (Qltb 0 (day_start_equity b) && _)%bool eqn:EP.
  - assert (HP := proj1 P eq_refl).
    split; [|split].
    + split; auto.
    + split; [discriminate|]. intros [H _]. contradiction.
    + intros H1 _. destruct HP as [HP _]. lra.
  - assert (NP : ~ (0 < day_start_equity b
                    /\ equity <= (1 - DAILY_LOSS_LIMIT) * day_start_equity b)).
    { intro H. apply P in H. discriminate. }
    destruct (Qltb 0 (start_equity b) && _)%bool eqn:EG.
    + assert (HG := proj1 G eq_refl).
      split; [|split].
      * split; [discriminate|]. intro H. contradiction.
      * split; [intros _; split; assumption|reflexivity].
      * intros _ H2. destruct HG as [HG _]. lra.
    + assert (NG : ~ (0 < start_equity b
                      /\ equity <= (1 - GLOBAL_DD_LIMIT) * start_equity b)).
      { intro H. apply G in H. discriminate. }
      split; [|split].
      * split; [discriminate|]. intro H. contradiction.
      * split; [discriminate|]. intros [_ H]. contradiction.
      * reflexivity.
Qed.

(* ------------------------------------------------------------------ *)
(** ** Trading loop: pauses, baselines, entries and closes *)

Lemma loop_config (DRY_RUN : bool) (envs : list Env) (b : Bot) :
  instrument (fst (loop DRY_RUN envs b)) = instrument b
  /\ start_equity (fst (loop DRY_RUN envs b)) = start_equity b
  /\ day_start_equity (fst (loop DRY_RUN envs b)) = day_start_equity b.
Proof.
  revert b. induction envs as [|e envs IH]; intro b; simpl; [auto|].
  pose proof (cycle_keeps DRY_RUN e b) as K.
  destruct (cycle DRY_RUN e b) as [[c b'] os]. simpl in K.
  destruct K as [K0 [K1 [K2 _]]].
  specialize (IH b').
  destruct c; try (destruct (loop DRY_RUN envs b') as [b'' os'];
                   simpl in *; destruct IH as [I0 [I1 I2]];
                   repeat split; congruence).
Qed.

(** X21.  However many cycles run and whatever the gateway answers, the
    bot keeps the instrument data and the two equity baselines it was
    started with: the daily baseline is never set again. *)
Theorem baselines_never_move
    (DRY_RUN : bool) (envs : list Env) (inst : Instrument) (equity : Q) :
  instrument (fst (loop DRY_RUN envs (Bot_init inst equity))) = inst
  /\ start_equity (fst (loop DRY_RUN envs (Bot_init inst equity))) = equity
  /\ day_start_equity (fst (loop DRY_RUN envs (Bot_init inst equity))) = equity.
Proof. apply (loop_config DRY_RUN envs (Bot_init inst equity)). Qed.

(** X22.  While equity is at most 98% of a positive daily baseline, a
    cycle ends paused: it sends no order and changes nothing in the bot,
    whatever the position and the market; the client-side stop is not
    checked in such a cycle. *)
Theorem pause_sends_nothing (DRY_RUN : bool) (env : Env) (b : Bot) (equity : Q) :
  wallet_cb env = Ok equity ->
  0 < day_start_equity b ->
  equity <= (1 - DAILY_LOSS_LIMIT) * day_start_equity b ->
  cycle DRY_RUN env b = (Paused, b, []).
Proof.
  intros Hw Hd He. unfold cycle. rewrite Hw.
  rewrite circuit_breakers_daily_first; [reflexivity|exact Hd|].
  apply ratio_le_iff; assumption.
Qed.

Lemma pause_sends_nothing_witness :
  let b := mkBot sample_instrument 10000 10000 (mkPosition Long 100 1 97 104) in
  let env := mkEnv (Ok 9750) (Ok short_klines) (Ok 9750) (fun _ => true) in
  cycle false env b = (Paused, b, []).
Proof.
  intros b env.
  apply (pause_sends_nothing false env b 9750).
  - reflexivity.
  - reflexivity.
  - vm_compute. discriminate.
Defined.

Lemma trade_leaves_no_breach_witness :
  let b := mkBot sample_instrument 10000 10000 (mkPosition Long 100 1 97 104) in
  let x := mkSnapshot None None None None None (965 # 10) in
  crossed (position b) (x_close x)
  /\ exists b' os, trade false (calm_env short_klines) x b = (Ok tt, b', os)
       /\ (crossed (position b') (x_close x) -> False).
Proof.
  intros b x. split; [vm_compute; discriminate|].
  eexists _, _. split; [vm_compute; reflexivity|].
  eapply (trade_leaves_no_breach false (calm_env short_klines) x b).
  - right. intro o. reflexivity.
  - vm_compute. reflexivity.
Defined.

Lemma cycle_stop_monotone_witness :
  let b := mkBot sample_instrument 10000 10000 (mkPosition Long 100 1 90 104) in
  let b' := snd (fst (cycle false (calm_env short_klines) b)) in
  side (position b') = Long
  /\ sl (position b) <= sl (position b')
  /\ qty (position b') = qty (position b).
Proof.
  intros b b'.
  assert (Hs : side (position b') = Long) by (vm_compute; reflexivity).
  split; [exact Hs|].
  destruct (cycle_stop_monotone false (calm_env short_klines) b) as [H _].
  destruct (H eq_refl Hs) as [H1 [_ H3]]. auto.
Defined.

(** X25.  When [decide] answers close_long the position is a long, and
    the trading step sends exactly one order, a reduce-only Sell of the
    position's quantity without bracket; when it answers close_short the
    position is a short and the order is a reduce-only Buy.  When the
    order is taken (always so under [DRY_RUN]) the step ends with the
    position [Position()]; when the gateway refuses it the step raises and
    the position stays open. *)
Theorem close_decision_flattens
    (DRY_RUN : bool) (env : Env) (x : Snapshot) (b : Bot) (sd : Side) :
  (sd = Long /\ fst (decide x (position b)) = close_long)
  \/ (sd = Short /\ fst (decide x (position b)) = close_short) ->
  let o := mkOrder (match sd with Long => Sell | _ => Buy end)
                   (qty (position b)) true None None in
  side (position b) = sd
  /\ (DRY_RUN = true \/ post_ok env o = true ->
      trade DRY_RUN env x b
      = (Ok tt, set_position b (mkPosition Flat 0 0 0 0), [o]))
  /\ (DRY_RUN = false -> post_ok env o = false ->
      trade DRY_RUN env x b
      = (Raise GatewayError, set_position b (snd (decide x (position b))), [o])).
Proof.
  intros Hd o.
  assert (Hs : side (position b) = sd).
  { pose proof (decide_cases x (position b)) as C.
    destruct (side (position b)).
    - destruct C as [_ [C|[C|C]]];
        destruct Hd as [[_ Hd]|[_ Hd]]; congruence.
    - destruct C as [C|C]; destruct Hd as [[E Hd]|[E Hd]]; congruence.
    - destruct C as [C|C]; destruct Hd as [[E Hd]|[E Hd]]; congruence. }
  assert (Ho : close_order (position b) = o).
  { unfold close_order, closing_side, o. rewrite Hs.
    destruct Hd as [[E _]|[E _]]; rewrite E; reflexivity. }
  set (b1 := set_position b (snd (decide x (position b)))).
  assert (Hside : side (position b1) = sd)
    by (unfold b1; simpl position; rewrite decide_side; exact Hs).
  assert (Hclose : close_position DRY_RUN env b1
                   = if (DRY_RUN || post_ok env o)%bool
                     then (Ok tt, set_position b Position0, [o])
                     else (Raise GatewayError, b1, [o])).
  { rewrite close_position_eq. unfold b1 at 1 3. simpl position.
    rewrite close_order_decide, Ho. reflexivity. }
  assert (Hflat : enforce_stop DRY_RUN env (x_close x) (set_position b Position0)
                  = (Ok tt, set_position b Position0, [])).
  { rewrite enforce_stop_eq. reflexivity. }
  assert (Hact : act DRY_RUN env (fst (decide x (position b))) x b1
                 = close_position DRY_RUN env b1).
  { rewrite act_eq, Hside.
    destruct Hd as [[E Hd]|[E Hd]]; rewrite Hd, E;
      destruct (usable (x_atr x)); reflexivity. }
  split; [exact Hs|]. split.
  - intro Hacc.
    assert (E : (DRY_RUN || post_ok env o)%bool = true).
    { destruct Hacc as [H|H]; rewrite H; [reflexivity|apply orb_true_r]. }
    rewrite trade_eq. fold b1. rewrite Hact, Hclose, E, Hflat. reflexivity.
  - intros H1 H2.
    rewrite trade_eq. fold b1. rewrite Hact, Hclose, H1, H2. reflexivity.
Qed.

Lemma close_decision_flattens_witness :
  let long := mkBot sample_instrument 10000 10000 (mkPosition Long 100 1 60 140) in
  let short := mkBot sample_instrument 10000 10000 (mkPosition Short 100 2 140 60) in
  let falling := mkSnapshot (Some 110) (Some 90) (Some 100) (Some 30) (Some 2) 80 in
  let rising := mkSnapshot (Some 90) (Some 110) (Some 100) (Some 60) (Some 2) 120 in
  trade false (calm_env short_klines) falling long
    = (Ok tt, set_position long (mkPosition Flat 0 0 0 0),
       [mkOrder Sell 1 true None None])
  /\ trade false (calm_env short_klines) rising short
    = (Ok tt, set_position short (mkPosition Flat 0 0 0 0),
       [mkOrder Buy 2 true None None]).
Proof.
  intros long short falling rising.
  destruct (close_decision_flattens false (calm_env short_klines) falling long Long)
    as [_ [A _]]; [left; split; reflexivity|].
  destruct (close_decision_flattens false (calm_env short_klines) rising short Short)
    as [_ [B _]]; [right; split; reflexivity|].
  split; [apply A|apply B]; right; reflexivity.
Defined.

(** What the trading step does on an entry: sizing, bracket, the entry
    order, the position, and then the stop check on the position just
    recorded. *)
Lemma trade_entry (DRY_RUN : bool) (env : Env) (x : Snapshot) (b : Bot)
    (sd : Side) (a : Q) :
  (sd = Long /\ fst (decide x (position b)) = open_long)
  \/ (sd = Short /\ fst (decide x (position b)) = open_short) ->
  usable (x_atr x) = Some a ->
  trade DRY_RUN env x b
  = match wallet_sz env with
    | Raise e => (Raise e, b, [])
    | Ok equity =>
        match position_sizing (instrument b) equity (x_close x) a with
        | Raise e => (Raise e, b, [])
        | Ok q =>
            match bracket_prices (instrument b) sd (x_close x) a with
            | Raise e => (Raise e, b, [])
            | Ok ts =>
                let o := mkOrder (match sd with Long => Buy | _ => Sell end) q false
                                 (opt_float (fst ts)) (opt_float (snd ts)) in
                let c := mkOrder (match sd with Long => Sell | _ => Buy end) q true
                                 None None in
                let p := mkPosition sd (x_close x) q (snd ts) (fst ts) in
                if (DRY_RUN || post_ok env o)%bool
                then
                  if match sd with
                     | Long => Qle_bool (x_close x) (snd ts)
                     | _ => Qle_bool (snd ts) (x_close x)
                     end
                  then
                    if (DRY_RUN || post_ok env c)%bool
                    then (Ok tt, set_position b (mkPosition Flat 0 0 0 0), [o; c])
                    else (Raise GatewayError, set_position b p, [o; c])
                  else (Ok tt, set_position b p, [o])
                else (Raise GatewayError, b, [o])
            end
        end
    end.
Proof.
  intros Hd Hu.
  assert (Hdo : fst (decide x (position b)) = open_long
                \/ fst (decide x (position b)) = open_short).
  { destruct Hd as [[_ Hd]|[_ Hd]]; [left|right]; exact Hd. }
  destruct (decide_open_flat x (position b) Hdo) as [Hflat Hsame].
  rewrite trade_eq, Hsame, set_position_same, act_eq, Hu.
  assert (Hact : match fst (decide x (position b)) with
                 | open_long => open_position DRY_RUN env Long (x_close x) a b
                 | open_short => open_position DRY_RUN env Short (x_close x) a b
                 | close_long | close_short =>
                     match side (position b) with
                     | Flat => (Ok tt, b, [])
                     | _ => close_position DRY_RUN env b
                     end
                 | _ => (Ok tt, b, [])
                 end = open_position DRY_RUN env sd (x_close x) a b).
  { destruct Hd as [[E Hd]|[E Hd]]; rewrite Hd, E; reflexivity. }
  rewrite Hact, open_position_eq.
  destruct (wallet_sz env) as [equity|e]; [|reflexivity].
  destruct (position_sizing _ _ _ _) as [q|e]; [|reflexivity].
  destruct (bracket_prices _ _ _ _) as [[t s]|e]; [|reflexivity].
  cbv zeta. simpl fst. simpl snd.
  assert (Eo : order_side sd = match sd with Long => Buy | _ => Sell end)
    by (destruct sd; reflexivity).
  rewrite Eo.
  destruct (DRY_RUN || post_ok env _)%bool; [|reflexivity].
  rewrite enforce_stop_eq. simpl position. simpl side. simpl sl.
  rewrite close_position_eq. simpl position.
  unfold close_order, closing_side. simpl side. simpl qty.
  destruct Hd as [[E _]|[E _]]; rewrite E.
  - destruct (Qle_bool (x_close x) s); [|reflexivity].
    destruct (DRY_RUN || post_ok env _)%bool; reflexivity.
  - destruct (Qle_bool s (x_close x)); [|reflexivity].
    destruct (DRY_RUN || post_ok env _)%bool; reflexivity.
Qed.

(** X26.  On an entry decision with a usable ATR the trading step ends in
    one of four ways.  It raises before the entry is made, leaving the bot
    exactly as it was with at most one order attempted.  Or it completes
    with one entry order (Buy for a long, Sell for a short) and the position
    it describes: that side, entered at the close, the order's quantity,
    stop and target, with the stop strictly beyond the price.  Or the stop
    is already reached by the price ([price <= stop] for a long,
    [price >= stop] for a short): then the same step closes the position it
    has just opened, with a reduce-only order of the same quantity on the
    other side, and ends flat.  Or that close is refused, the step raises
    and the position stays open.  Which of them it is follows from what
    the wallet, [position_sizing] and [bracket_prices] returned: the
    quantity is the one sized at the close, the stop and target are the
    bracket's, and the step raises after the entry order only when the
    gateway refuses an order. *)
Theorem entry_stays_or_closes_at_once
    (DRY_RUN : bool) (env : Env) (x : Snapshot) (b : Bot) (sd : Side) (a : Q) :
  (sd = Long /\ fst (decide x (position b)) = open_long)
  \/ (sd = Short /\ fst (decide x (position b)) = open_short) ->
  usable (x_atr x) = Some a ->
  let there := match sd with Long => Buy | _ => Sell end in
  let back := match sd with Long => Sell | _ => Buy end in
  match trade DRY_RUN env x b with
  | (Ok _, b', os) =>
      exists q t s,
        (b' = set_position b (mkPosition sd (x_close x) q s t)
         /\ match sd with Long => s < x_close x | _ => x_close x < s end
         /\ os = [mkOrder there q false (opt_float t) (opt_float s)])
        \/ (b' = set_position b (mkPosition Flat 0 0 0 0)
            /\ match sd with Long => x_close x <= s | _ => s <= x_close x end
            /\ os = [mkOrder there q false (opt_float t) (opt_float s);
                     mkOrder back q true None None])
  | (Raise _, b', os) =>
      (b' = b /\ (length os <= 1)%nat)
      \/ exists q t s,
           b' = set_position b (mkPosition sd (x_close x) q s t)
           /\ match sd with Long => x_close x <= s | _ => s <= x_close x end
           /\ os = [mkOrder there q false (opt_float t) (opt_float s);
                    mkOrder back q true None None]
  end
  /\ forall equity q t s,
       wallet_sz env = Ok equity ->
       position_sizing (instrument b) equity (x_close x) a = Ok q ->
       bracket_prices (instrument b) sd (x_close x) a = Ok (t, s) ->
       let o := mkOrder there q false (opt_float t) (opt_float s) in
       let c := mkOrder back q true None None in
       let p := mkPosition sd (x_close x) q s t in
       trade DRY_RUN env x b
       = if (DRY_RUN || post_ok env o)%bool
         then
           if match sd with
              | Long => Qle_bool (x_close x) s
              | _ => Qle_bool s (x_close x)
              end
           then
             if (DRY_RUN || post_ok env c)%bool
             then (Ok tt, set_position b (mkPosition Flat 0 0 0 0), [o; c])
             else (Raise GatewayError, set_position b p, [o; c])
           else (Ok tt, set_position b p, [o])
         else (Raise GatewayError, b, [o]).
Proof.
  intros Hd Hu there back.
  rewrite (trade_entry DRY_RUN env x b sd a Hd Hu).
  split.
  - destruct (wallet_sz env) as [equity|e]; [|left; split; [reflexivity|simpl; lia]].
    destruct (position_sizing _ _ _ _) as [q|e];
      [|left; split; [reflexivity|simpl; lia]].
    destruct (bracket_prices _ _ _ _) as [[t s]|e];
      [|left; split; [reflexivity|simpl; lia]].
    cbv zeta. simpl fst. simpl snd. fold there. fold back.
    destruct (DRY_RUN || post_ok env _)%bool;
      [|left; split; [reflexivity|simpl; lia]].
    destruct Hd as [[E _]|[E _]]; subst sd.
    + destruct (Qle_bool (x_close x) s) eqn:Hq.
      * apply Qle_bool_iff in Hq.
        destruct (DRY_RUN || post_ok env _)%bool.
        -- exists q, t, s. right. auto.
        -- right. exists q, t, s. auto.
      * apply Qle_bool_false in Hq. exists q, t, s. left. auto.
    + destruct (Qle_bool s (x_close x)) eqn:Hq.
      * apply Qle_bool_iff in Hq.
        destruct (DRY_RUN || post_ok env _)%bool.
        -- exists q, t, s. right. auto.
        -- right. exists q, t, s. auto.
      * apply Qle_bool_false in Hq. exists q, t, s. left. auto.
  - intros equity q t s Hw Hq Hb. rewrite Hw, Hq, Hb. reflexivity.
Qed.

Lemma entry_stays_or_closes_at_once_witness :
  let fine := Bot_init sample_instrument 10000 in
  let coarse := Bot_init (mkInstrument (1 # 1000) (1 # 1000) 10 100) 10000 in
  let rising := mkSnapshot (Some 90) (Some 110) (Some 100) (Some 60) (Some 2) 120 in
  let falling := mkSnapshot (Some 110) (Some 90) (Some 100) (Some 30) (Some 2) 100 in
  (exists q t s,
     trade false (calm_env short_klines) rising fine
     = (Ok tt, set_position fine (mkPosition Long 120 q s t),
        [mkOrder Buy q false (opt_float t) (opt_float s)])
     /\ s < 120)
  /\ (exists q t s,
        trade false (calm_env short_klines) falling coarse
        = (Ok tt, set_position coarse (mkPosition Flat 0 0 0 0),
           [mkOrder Sell q false (opt_float t) (opt_float s);
            mkOrder Buy q true None None])
        /\ s <= 100).
Proof.
  intros fine coarse rising falling.
  destruct (entry_stays_or_closes_at_once false (calm_env short_klines)
              rising fine Long 2) as [A _];
    [left; split; reflexivity|reflexivity|].
  destruct (entry_stays_or_closes_at_once false (calm_env short_klines)
              falling coarse Short 2) as [B _];
    [right; split; reflexivity|reflexivity|].
  cbv zeta in A, B.
  split.
  - destruct (trade false (calm_env short_klines) rising fine)
      as [[r b'] os] eqn:E.
    destruct r as [u|e]; [|vm_compute in E; discriminate E].
    destruct u.
    destruct A as [q [t [s [[A1 [A2 A3]]|[A1 [A2 A3]]]]]].
    + exists q, t, s. rewrite A1, A3. split; [reflexivity|exact A2].
    + exfalso. rewrite A1 in E. vm_compute in E. discriminate E.
  - destruct (trade false (calm_env short_klines) falling coarse)
      as [[r b'] os] eqn:E.
    destruct r as [u|e]; [|vm_compute in E; discriminate E].
    destruct u.
    destruct B as [q [t [s [[B1 [B2 B3]]|[B1 [B2 B3]]]]]].
    + exfalso. rewrite B1 in E. vm_compute in E. discriminate E.
    + exists q, t, s. rewrite B1, B3. split; [reflexivity|exact B2].
Defined.

(* ------------------------------------------------------------------ *)
(** ** The order stream and the position record *)

Lemma apply_orders_app (h : Held) (o1 o2 : list Order) :
  apply_orders h (o1 ++ o2)
  = match apply_orders h o1 with
    | Some h' => apply_orders h' o2
    | None => None
    end.
Proof.
  revert h. induction o1 as [|o o1 IH]; intro h; simpl; [reflexivity|].
  destruct (apply_order h o) as [h'|]; [apply IH|reflexivity].
Qed.

Lemma held_of_decide (x : Snapshot) (p : Position) :
  held_of (snd (decide x p)) = held_of p.
Proof.
  unfold held_of. rewrite decide_side.
  destruct (decide_frame x p) as [_ [Hq _]]. rewrite Hq. reflexivity.
Qed.

Lemma Qeq_bool_same (q : Q) : Qeq_bool q q = true.
Proof. apply Qeq_bool_iff. reflexivity. Qed.

Lemma close_order_fits (p : Position) :
  side p <> Flat -> apply_orders (held_of p) [close_order p] = Some None.
Proof.
  intro Hs. unfold held_of, close_order, apply_orders, apply_order.
  destruct (side p); [contradiction| |]; simpl; rewrite Qeq_bool_same; reflexivity.
Qed.

Section OrderStream.

Variable DRY_RUN : bool.
Variable env : Env.
Hypothesis Hacc : accepting DRY_RUN env.

Lemma close_position_fits (b : Bot) :
  side (position b) <> Flat ->
  apply_orders (held_of (position b)) (snd (close_position DRY_RUN env b))
  = Some (held_of (position (snd (fst (close_position DRY_RUN env b))))).
Proof.
  intro Hs. rewrite close_position_eq, (accepting_submit DRY_RUN env _ Hacc).
  simpl. apply (close_order_fits (position b) Hs).
Qed.

Lemma open_position_fits (sd : Side) (price a : Q) (b : Bot) :
  sd <> Flat -> side (position b) = Flat ->
  apply_orders (held_of (position b)) (snd (open_position DRY_RUN env sd price a b))
  = Some (held_of (position (snd (fst (open_position DRY_RUN env sd price a b))))).
Proof.
  intros Hsd Hflat. rewrite open_position_eq.
  destruct (wallet_sz env) as [equity|e]; [|reflexivity].
  destruct (position_sizing _ _ _ _) as [q|e]; [|reflexivity].
  destruct (bracket_prices _ _ _ _) as [ts|e]; [|reflexivity].
  cbv zeta. rewrite (accepting_submit DRY_RUN env _ Hacc).
  unfold held_of at 1. rewrite Hflat.
  destruct sd; [contradiction|reflexivity|reflexivity].
Qed.

Lemma act_fits (action : Decision) (x : Snapshot) (b : Bot) :
  (action = open_long \/ action = open_short -> side (position b) = Flat) ->
  apply_orders (held_of (position b)) (snd (act DRY_RUN env action x b))
  = Some (held_of (position (snd (fst (act DRY_RUN env action x b))))).
Proof.
  intro Hopen. rewrite act_eq.
  destruct action; destruct (usable (x_atr x)) as [a|];
    try reflexivity;
    try (apply open_position_fits; [discriminate|apply Hopen; auto]);
    destruct (side (position b)) eqn:Hs; try reflexivity;
    apply close_position_fits; rewrite Hs; discriminate.
Qed.

Lemma enforce_stop_fits (price : Q) (b : Bot) :
  apply_orders (held_of (position b)) (snd (enforce_stop DRY_RUN env price b))
  = Some (held_of (position (snd (fst (enforce_stop DRY_RUN env price b))))).
Proof.
  rewrite enforce_stop_eq.
  destruct (side (position b)) eqn:Hs; try reflexivity;
    (destruct (Qle_bool _ _); [|reflexivity]);
    apply close_position_fits; rewrite Hs; discriminate.
Qed.

Lemma trade_fits (x : Snapshot) (b : Bot) :
  apply_orders (held_of (position b)) (snd (trade DRY_RUN env x b))
  = Some (held_of (position (snd (fst (trade DRY_RUN env x b))))).
Proof.
  rewrite trade_eq.
  pose proof (act_fits (fst (decide x (position b))) x
                (set_position b (snd (decide x (position b))))) as HA.
  assert (Hp : position (set_position b (snd (decide x (position b))))
               = snd (decide x (position b))) by reflexivity.
  rewrite Hp, held_of_decide in HA.
  assert (Hopen : fst (decide x (position b)) = open_long
                  \/ fst (decide x (position b)) = open_short ->
                  side (snd (decide x (position b))) = Flat).
  { intro H. rewrite decide_side. apply (decide_open_flat x (position b) H). }
  specialize (HA Hopen).
  destruct (act DRY_RUN env _ x _) as [[r b1] o1]. simpl in HA.
  destruct r as [u|e]; [|exact HA].
  pose proof (enforce_stop_fits (x_close x) b1) as HE.
  destruct (enforce_stop DRY_RUN env (x_close x) b1) as [[r2 b2] o2].
  simpl in HE. simpl.
  rewrite apply_orders_app, HA. exact HE.
Qed.

Lemma cycle_fits (b : Bot) :
  apply_orders (held_of (position b)) (snd (cycle DRY_RUN env b))
  = Some (held_of (position (snd (fst (cycle DRY_RUN env b))))).
Proof.
  unfold cycle.
  destruct (wallet_cb env) as [equity|e]; [|reflexivity].
  destruct (circuit_breakers b equity); try reflexivity.
  unfold bind, lift.
  destruct (klines env) as [k|e]; [|reflexivity].
  destruct (compute_indicators k) as [x|e]; [|reflexivity].
  pose proof (trade_fits x b) as H.
  destruct (trade DRY_RUN env x b) as [[r b'] os]. simpl in H.
  destruct r; exact H.
Qed.

End OrderStream.

Lemma loop_fits (DRY_RUN : bool) (envs : list Env) (b : Bot) :
  Forall (accepting DRY_RUN) envs ->
  apply_orders (held_of (position b)) (snd (loop DRY_RUN envs b))
  = Some (held_of (position (fst (loop DRY_RUN envs b)))).
Proof.
  revert b. induction envs as [|e envs IH]; intros b Hall; [reflexivity|].
  inversion Hall as [|e' envs' He Hrest]; subst.
  pose proof (cycle_fits DRY_RUN e He b) as HC.
  specialize (IH (snd (fst (cycle DRY_RUN e b))) Hrest).
  simpl loop.
  destruct (cycle DRY_RUN e b) as [[c b'] os]. simpl in HC, IH.
  destruct (loop DRY_RUN envs b') as [b'' os'] eqn:EL. simpl in IH.
  destruct c; simpl; try (rewrite apply_orders_app, HC; exact IH).
  exact HC.
Qed.

(** X27.  On gateways that take every order, the orders of any run of
    cycles from [Bot.__init__] fit one another: an entry is only sent with
    nothing held, a close is reduce-only, on the side opposite to the entry
    before it and for its quantity; and what the orders leave held is what
    the [Position] record says (its side and quantity). *)
Theorem orders_track_position
    (DRY_RUN : bool) (envs : list Env) (inst : Instrument) (equity : Q) :
  Forall (accepting DRY_RUN) envs ->
  apply_orders None (snd (loop DRY_RUN envs (Bot_init inst equity)))
  = Some (held_of (position (fst (loop DRY_RUN envs (Bot_init inst equity))))).
Proof.
  intro H. apply (loop_fits DRY_RUN envs (Bot_init inst equity) H).
Qed.

Lemma orders_track_position_witness :
  let envs := [calm_env rising_klines; calm_env short_klines] in
  exists o1 o2,
    snd (loop false envs (Bot_init sample_instrument 10000)) = [o1; o2]
    /\ apply_orders None [o1; o2]
       = Some (held_of (position (fst (loop false envs
                                         (Bot_init sample_instrument 10000))))).
Proof.
  intro envs.
  pose proof (orders_track_position false envs sample_instrument 10000) as H.
  destruct (snd (loop false envs (Bot_init sample_instrument 10000)))
    as [|o1 [|o2 [|o3 os]]] eqn:E;
    try (vm_compute in E; discriminate E).
  exists o1, o2. split; [reflexivity|].
  apply H. repeat constructor; right; intro o; reflexivity.
Defined.

(* ------------------------------------------------------------------ *)
(** ** Candles from the gateway *)

Lemma pmapM_Forall2 {A B : Type} (f : A -> pres B) (l : list A) (l' : list B) :
  pmapM f l = inr l' -> Forall2 (fun a b => f a = inr b) l l'.
Proof.
  revert l'. induction l as [|a l IH]; intros l' H; simpl in H.
  - inversion H. constructor.
  - destruct (f a) as [e|b] eqn:Ea; simpl in H; [discriminate|].
    destruct (pmapM f l) as [e|bs]; simpl in H; [discriminate|].
    inversion H; subst. constructor; [exact Ea|apply IH; reflexivity].
Qed.

Lemma insert_keyed_perm (kr : Z * Row) (l : list (Z * Row)) :
  Permutation (insert_keyed kr l) (kr :: l).
Proof.
  induction l as [|kr' l IH]; simpl; [reflexivity|].
  destruct (fst kr <=? fst kr')%Z; [reflexivity|].
  rewrite IH. apply perm_swap.
Qed.

Lemma sorted_keyed_perm (l : list (Z * Row)) : Permutation (sorted_keyed l) l.
Proof.
  induction l as [|kr l IH]; simpl; [reflexivity|].
  rewrite insert_keyed_perm. constructor. exact IH.
Qed.

Lemma insert_keyed_sorted (kr : Z * Row) (l : list (Z * Row)) :
  Sorted (fun a b => (fst a <= fst b)%Z) l ->
  Sorted (fun a b => (fst a <= fst b)%Z) (insert_keyed kr l).
Proof.
  induction l as [|kr' l IH]; intro Hs; simpl.
  - constructor; constructor.
  - destruct (fst kr <=? fst kr')%Z eqn:E.
    + apply Z.leb_le in E. constructor; [exact Hs|]. constructor. exact E.
    + apply Z.leb_gt in E. inversion Hs as [|x y Hs' Hd]; subst.
      constructor; [apply IH; exact Hs'|].
      destruct l as [|kr'' l']; simpl.
      * constructor. lia.
      * destruct (fst kr <=? fst kr'')%Z; constructor; [lia|].
        inversion Hd; subst. assumption.
Qed.

Lemma sorted_keyed_sorted (l : list (Z * Row)) :
  Sorted (fun a b => (fst a <= fst b)%Z) (sorted_keyed l).
Proof.
  induction l as [|kr l IH]; simpl; [constructor|].
  apply insert_keyed_sorted. exact IH.
Qed.

Section GetKlinesProperties.

Variable py_int : String.string -> option Z.
Variable py_float : String.string -> option Q.

Lemma with_key_inv (row : Row) (kr : Z * Row) :
  with_key py_int row = inr kr ->
  snd kr = row /\ sort_key py_int row = inr (fst kr).
Proof.
  unfold with_key. destruct (sort_key py_int row) as [e|k]; simpl; [discriminate|].
  intro H. inversion H. simpl. auto.
Qed.

Lemma keyed_rows (rows : list Row) (keyed : list (Z * Row)) :
  pmapM (with_key py_int) rows = inr keyed ->
  map snd keyed = rows
  /\ forall kr, In kr keyed -> sort_key py_int (snd kr) = inr (fst kr).
Proof.
  intro H. apply pmapM_Forall2 in H.
  induction H as [|row kr rows keyed Hk HF IH]; simpl; [split; [reflexivity|]|].
  - intros kr [].
  - destruct (with_key_inv row kr Hk) as [H1 H2]. destruct IH as [I1 I2].
    split; [rewrite H1, I1; reflexivity|].
    intros kr' [<-|Hin]; [rewrite H1; exact H2|apply I2; exact Hin].
Qed.

Lemma candle_of_row_fields (row : Row) (c : Candle) :
  candle_of_row py_float row = inr c -> (5 <= length row)%nat.
Proof.
  unfold candle_of_row.
  destruct (row_get row 1) as [e|s1]; simpl; [discriminate|].
  destruct (to_float py_float s1) as [e|o]; simpl; [discriminate|].
  destruct (row_get row 2) as [e|s2]; simpl; [discriminate|].
  destruct (to_float py_float s2) as [e|h]; simpl; [discriminate|].
  destruct (row_get row 3) as [e|s3]; simpl; [discriminate|].
  destruct (to_float py_float s3) as [e|l]; simpl; [discriminate|].
  unfold row_get at 1.
  destruct (nth_error row 4) as [s4|] eqn:E; simpl; [|discriminate].
  intros _.
  assert (H : nth_error row 4 <> None) by congruence.
  apply nth_error_Some in H. lia.
Qed.

(** What [get_klines] returns when it returns. *)
Lemma get_klines_inv (rows : list Row) (k : Klines) :
  get_klines py_int py_float rows = inr k ->
  exists data cs,
    Permutation (map snd data) rows
    /\ Sorted (fun a b => (fst a <= fst b)%Z) data
    /\ (forall kr, In kr data -> sort_key py_int (snd kr) = inr (fst kr))
    /\ pmapM (candle_of_row py_float) (map snd data) = inr cs
    /\ k = mkKlines (map c_open cs) (map c_high cs) (map c_low cs) (map c_close cs).
Proof.
  unfold get_klines.
  destruct (pmapM (with_key py_int) rows) as [e|keyed] eqn:Hk; simpl; [discriminate|].
  destruct (pmapM (candle_of_row py_float) (map snd (sorted_keyed keyed)))
    as [e|cs] eqn:Hc; simpl; [discriminate|].
  intro H. inversion H. clear H.
  destruct (keyed_rows rows keyed Hk) as [K1 K2].
  exists (sorted_keyed keyed), cs.
  split; [|split; [|split; [|split]]].
  - rewrite <- K1. apply Permutation_map. apply sorted_keyed_perm.
  - apply sorted_keyed_sorted.
  - intros kr Hin. apply K2.
    apply (Permutation_in kr (sorted_keyed_perm keyed) Hin).
  - exact Hc.
  - reflexivity.
Qed.

Lemma pmapM_length {A B : Type} (f : A -> pres B) (l : list A) (l' : list B) :
  pmapM f l = inr l' -> length l' = length l.
Proof.
  intro H. apply pmapM_Forall2 in H.
  induction H; simpl; [reflexivity|]. rewrite IHForall2. reflexivity.
Qed.

Lemma sort_key_inv (row : Row) (z : Z) :
  sort_key py_int row = inr z ->
  exists s0, nth_error row 0 = Some s0 /\ py_int s0 = Some z.
Proof.
  unfold sort_key, row_get, to_int.
  destruct (nth_error row 0) as [s0|]; simpl; [|discriminate].
  destruct (py_int s0) as [z0|] eqn:E; [|discriminate].
  intro H. inversion H. subst. exists s0. split; [reflexivity|exact E].
Qed.

Lemma to_float_inv (s : String.string) (q : Q) :
  to_float py_float s = inr q -> py_float s = Some q.
Proof.
  unfold to_float. destruct (py_float s); [|discriminate].
  intro H. inversion H. reflexivity.
Qed.

(** The four numbers of a candle are [float] of fields 1 to 4 of its row. *)
Lemma candle_of_row_inv (row : Row) (c : Candle) :
  candle_of_row py_float row = inr c ->
  (exists s, nth_error row 1 = Some s /\ py_float s = Some (c_open c))
  /\ (exists s, nth_error row 2 = Some s /\ py_float s = Some (c_high c))
  /\ (exists s, nth_error row 3 = Some s /\ py_float s = Some (c_low c))
  /\ (exists s, nth_error row 4 = Some s /\ py_float s = Some (c_close c)).
Proof.
  unfold candle_of_row, row_get.
  destruct (nth_error row 1) as [s1|]; cbn [pbind]; [|discriminate].
  destruct (to_float py_float s1) as [e|o] eqn:E1; cbn [pbind]; [discriminate|].
  destruct (nth_error row 2) as [s2|]; cbn [pbind]; [|discriminate].
  destruct (to_float py_float s2) as [e|h] eqn:E2; cbn [pbind]; [discriminate|].
  destruct (nth_error row 3) as [s3|]; cbn [pbind]; [|discriminate].
  destruct (to_float py_float s3) as [e|l] eqn:E3; cbn [pbind]; [discriminate|].
  destruct (nth_error row 4) as [s4|]; cbn [pbind]; [|discriminate].
  destruct (to_float py_float s4) as [e|c4] eqn:E4; cbn [pbind]; [discriminate|].
  intro H. inversion H. subst c. clear H.
  apply to_float_inv in E1. apply to_float_inv in E2.
  apply to_float_inv in E3. apply to_float_inv in E4.
  unfold c_open, c_high, c_low, c_close. simpl.
  repeat split; eexists; split; try reflexivity; assumption.
Qed.

(** A series read off the candles is read off the rows they came from. *)
Lemma series_of_rows (j : nat) (get : Candle -> Q)
    (data : list (Z * Row)) (cs : list Candle) :
  (forall row c, candle_of_row py_float row = inr c ->
     exists s, nth_error row j = Some s /\ py_float s = Some (get c)) ->
  pmapM (candle_of_row py_float) (map snd data) = inr cs ->
  Forall2 (fun kr v => exists s, nth_error (snd kr) j = Some s /\ py_float s = Some v)
          data (map get cs).
Proof.
  intros Hget H. apply pmapM_Forall2 in H.
  revert cs H. induction data as [|kr data IH]; intros cs H; simpl in H.
  - inversion H. constructor.
  - inversion H as [|r c rs cs' Hr HF]; subst. simpl. constructor.
    + apply (Hget _ _ Hr).
    + apply IH. exact HF.
Qed.

(** X28.  When [get_klines] returns, every row had at least five fields,
    and the four series are read off the rows put in ascending order of
    [int(row[0])]: entry [i] of open, high, low and close is [float] of
    field 1, 2, 3 and 4 of the [i]-th row in that order, one entry per row.
    On such candles [compute_indicators] returns a snapshot unless there
    was no row at all, in which case it raises an IndexError. *)
Theorem get_klines_shape (rows : list Row) (k : Klines) :
  get_klines py_int py_float rows = inr k ->
  (forall row, In row rows -> (5 <= length row)%nat)
  /\ (length (k_open k) = length rows /\ length (k_high k) = length rows
      /\ length (k_low k) = length rows /\ length (k_close k) = length rows)
  /\ (exists data : list (Z * Row),
        Permutation (map snd data) rows
        /\ Sorted (fun a b => (fst a <= fst b)%Z) data
        /\ (forall kr, In kr data ->
              exists s, nth_error (snd kr) 0 = Some s /\ py_int s = Some (fst kr))
        /\ Forall2 (fun kr v => exists s, nth_error (snd kr) 1 = Some s
                                          /\ py_float s = Some v)
                   data (k_open k)
        /\ Forall2 (fun kr v => exists s, nth_error (snd kr) 2 = Some s
                                          /\ py_float s = Some v)
                   data (k_high k)
        /\ Forall2 (fun kr v => exists s, nth_error (snd kr) 3 = Some s
                                          /\ py_float s = Some v)
                   data (k_low k)
        /\ Forall2 (fun kr v => exists s, nth_error (snd kr) 4 = Some s
                                          /\ py_float s = Some v)
                   data (k_close k))
  /\ (rows <> [] -> exists x, compute_indicators k = Ok x)
  /\ (rows = [] -> compute_indicators k = Raise IndexError).
Proof.
  intro H.
  destruct (get_klines_inv rows k H) as [data [cs [HP [HS [HK [HC Hk]]]]]].
  assert (Hlen : length cs = length rows).
  { rewrite (pmapM_length _ _ _ HC). apply Permutation_length. exact HP. }
  assert (L : length (k_open k) = length rows /\ length (k_high k) = length rows
              /\ length (k_low k) = length rows /\ length (k_close k) = length rows).
  { rewrite Hk. simpl. rewrite !length_map. auto. }
  destruct (compute_indicators_cases k) as [C1 [_ C3]].
  split; [|split; [exact L|split; [|split]]].
  - intros row Hin.
    apply (Permutation_in row (Permutation_sym HP)) in Hin.
    pose proof (pmapM_Forall2 _ _ _ HC) as F.
    clear - F Hin. induction F as [|r c rs cs' Hr HF IH]; [contradiction|].
    destruct Hin as [<-|Hin]; [apply (candle_of_row_fields r c Hr)|apply IH; exact Hin].
  - exists data. rewrite Hk. cbn [k_open k_high k_low k_close].
    split; [exact HP|]. split; [exact HS|].
    split; [intros kr Hin; apply sort_key_inv; apply HK; exact Hin|].
    split; [|split; [|split]];
      (apply series_of_rows; [|exact HC]; intros row c Hc;
       destruct (candle_of_row_inv row c Hc) as [A1 [A2 [A3 A4]]]; assumption).
  - intro Hne. destruct L as [_ [L2 [L3 L4]]].
    destruct (C3) as [x [Hx _]].
    + intro E. rewrite E in L4. simpl in L4.
      destruct rows; [contradiction|discriminate].
    + right. unfold len. lia.
    + exists x. exact Hx.
  - intro E. apply C1. destruct L as [_ [_ [_ L4]]]. rewrite E in L4.
    destruct (k_close k); [reflexivity|discriminate].
Qed.

End GetKlinesProperties.

Lemma get_klines_shape_witness :
  let py_int := fun s : String.string => Some (Z.of_nat (String.length s)) in
  let py_float := fun s : String.string =>
                    Some (inject_Z (Z.of_nat (String.length s))) in
  let rows : list Row :=
    [["bb"; "a"; "aaa"; "a"; "aa"]; ["b"; "aa"; "aaaa"; "a"; "a"]]%string in
  let k := mkKlines [2; 1] [4; 3] [1; 1] [1; 2] in
  get_klines py_int py_float rows = inr k
  /\ (exists data : list (Z * Row),
        Permutation (map snd data) rows
        /\ Sorted (fun a b => (fst a <= fst b)%Z) data
        /\ Forall2 (fun kr v => exists s, nth_error (snd kr) 2 = Some s
                                          /\ py_float s = Some v)
                   data (k_high k)
        /\ Forall2 (fun kr v => exists s, nth_error (snd kr) 3 = Some s
                                          /\ py_float s = Some v)
                   data (k_low k))
  /\ exists x, compute_indicators k = Ok x.
Proof.
  intros py_int py_float rows k.
  assert (E : get_klines py_int py_float rows = inr k)
    by (vm_compute; reflexivity).
  split; [exact E|].
  destruct (get_klines_shape py_int py_float rows k E)
    as [_ [_ [[data [HP [HS [_ [_ [HH [HL _]]]]]]] [Hx _]]]].
  split; [|apply Hx; discriminate].
  exists data. auto.
Defined.

(* ------------------------------------------------------------------ *)
(** ** Leverage asked for at start-up *)

Lemma py_int_of_float_nonneg (q : Q) :
  0 <= q -> (0 <= py_int_of_float q)%Z /\ inject_Z (py_int_of_float q) <= q.
Proof.
  intro H. unfold py_int_of_float.
  assert (E : Qle_bool 0 q = true) by (apply Qle_bool_iff; exact H).
  rewrite E. split; [|apply Qfloor_le].
  change 0%Z with (Qfloor 0). apply Qfloor_resp_le. exact H.
Qed.

(** X29.  The leverage that [Bot.__init__] asks the gateway for is never
    above 5; when the instrument's maximum is not negative it is a whole
    number between 0 and that maximum, 5 once the maximum reaches 5, and 0
    when the maximum is below 1. *)
Theorem init_leverage_bounds (inst : Instrument) :
  (init_leverage inst <= 5)%Z
  /\ (0 <= max_leverage inst ->
      (0 <= init_leverage inst)%Z
      /\ inject_Z (init_leverage inst) <= max_leverage inst)
  /\ (5 <= max_leverage inst -> init_leverage inst = 5%Z)
  /\ (0 <= max_leverage inst -> max_leverage inst < 1 -> init_leverage inst = 0%Z).
Proof.
  unfold init_leverage.
  split; [apply Z.le_min_l|]. split; [|split].
  - intro H. destruct (py_int_of_float_nonneg _ H) as [H1 H2].
    split; [apply Z.min_glb; lia|].
    apply Qle_trans with (inject_Z (py_int_of_float (max_leverage inst)));
      [|exact H2].
    rewrite <- Zle_Qle. apply Z.le_min_r.
  - intro H. apply Z.min_l.
    unfold py_int_of_float.
    assert (E : Qle_bool 0 (max_leverage inst) = true)
      by (apply Qle_bool_iff; lra).
    rewrite E. change 5%Z with (Qfloor 5). apply Qfloor_resp_le. exact H.
  - intros H0 H1. destruct (py_int_of_float_nonneg _ H0) as [A B].
    assert (C : (py_int_of_float (max_leverage inst) < 1)%Z).
    { rewrite Zlt_Qlt. change (inject_Z 1) with 1. lra. }
    lia.
Qed.

Lemma init_leverage_bounds_witness :
  init_leverage sample_instrument = 5%Z
  /\ init_leverage (mkInstrument (1 # 1000) 1 (1 # 100) (25 # 10)) = 2%Z.
Proof.
  destruct (init_leverage_bounds sample_instrument) as [_ [_ [H _]]].
  split; [apply H; vm_compute; discriminate|reflexivity].
Defined.
